(** * Maintenance monitoring backend: a shallow embedding of the Express server

    The server keeps one in-memory object [db = {machines, vitals}], written
    to [db.json] by [saveDb], and answers a handful of REST routes.  Every
    route handler is embedded as a computation in a small state monad over the
    store, the file and the log of calls to [sendAlertEmail].

    JavaScript values are embedded as they come out of [JSON.parse]: objects
    are finite maps from property names to values, and [undefined] is the
    absence of a value ([None] of [option jsval]).  Numbers are rationals
    extended with the two infinities and NaN.  Comparisons are those of
    doubles, which are exact.  The arithmetic of the simulation, where
    rounding and overflow show, is left to the runtime; the one quotient
    computed here is that of a difference of time values by a constant.

    The event loop runs one handler at a time, and every handler but one
    runs to its end without yielding.  The vitals handler yields once, at
    [await sendAlertEmail(...)]: it is embedded in two halves, and the
    requests that arrive between them are those of a schedule. *)

From Stdlib Require Import QArith Qround Ascii.
From stdpp Require Import gmap strings list fin_maps sorting pretty.

#[local] Set Warnings "-register-all".
#[local] Open Scope Z_scope.

(** ** Numbers *)

Inductive number := NaN | NegInf | Fin (q : Q) | PosInf.

Module Num.

Definition of_Z (z : Z) : number := Fin (inject_Z z).

(** The strict order of the extended reals; NaN is not comparable. *)
Definition lt (a b : number) : Prop :=
  match a, b with
  | Fin p, Fin q => (p < q)%Q
  | NegInf, Fin _ | NegInf, PosInf | Fin _, PosInf => True
  | _, _ => False
  end.

Definition le (a b : number) : Prop :=
  match a, b with
  | Fin p, Fin q => (p <= q)%Q
  | NaN, _ | _, NaN => False
  | NegInf, _ | _, PosInf => True
  | _, _ => False
  end.

(** [a < b]; every comparison with NaN is false. *)
Definition ltb (a b : number) : bool :=
  match a, b with
  | NaN, _ | _, NaN => false
  | PosInf, _ | _, NegInf => false
  | NegInf, _ | _, PosInf => true
  | Fin p, Fin q => match (p ?= q)%Q with Lt => true | _ => false end
  end.

(** [a > b] *)
Definition gtb (a b : number) : bool := ltb b a.

(** [a <= b] *)
Definition leb (a b : number) : bool :=
  match a, b with
  | NaN, _ | _, NaN => false
  | _, _ => negb (ltb b a)
  end.

(** [a >= b] *)
Definition geb (a b : number) : bool := leb b a.

(** unary [-a] *)
Definition neg (a : number) : number :=
  match a with
  | NaN => NaN
  | NegInf => PosInf
  | Fin q => Fin (- q)
  | PosInf => NegInf
  end.

Definition is_zero (q : Q) : bool := Qeq_bool q 0.
Definition is_neg (q : Q) : bool := match (q ?= 0)%Q with Lt => true | _ => false end.

(** [a / b] without rounding; zero carries no sign in this model.  The
    server compares such a quotient, of a difference of two time values by
    a constant, with an integer: the rounding of a double does not change
    the outcome for time values less than some hundred thousand years
    apart. *)
Definition div (a b : number) : number :=
  match a, b with
  | NaN, _ | _, NaN => NaN
  | Fin p, Fin q =>
      if is_zero q then
        if is_zero p then NaN else if is_neg p then NegInf else PosInf
      else Fin (p / q)
  | Fin _, _ => Fin 0
  | PosInf, Fin q => if is_neg q then NegInf else PosInf
  | NegInf, Fin q => if is_neg q then PosInf else NegInf
  | _, _ => NaN
  end.

(** ToBoolean on a Number: [0] and [NaN] are falsy. *)
Definition truthy (a : number) : bool :=
  match a with
  | NaN => false
  | Fin q => negb (is_zero q)
  | _ => true
  end.

(** ToIntegerOrInfinity: NaN becomes 0, a finite number is truncated
    towards zero and the infinities stay. *)
Definition to_integer (a : number) : number :=
  match a with
  | NaN => of_Z 0
  | Fin q => of_Z (Z.quot (Qnum q) (Zpos (Qden q)))
  | inf => inf
  end.

(** [a + b], [a - b] and [a * b] without rounding or overflow *)
Definition add (a b : number) : number :=
  match a, b with
  | NaN, _ | _, NaN => NaN
  | Fin p, Fin q => Fin (p + q)
  | PosInf, NegInf | NegInf, PosInf => NaN
  | PosInf, _ | _, PosInf => PosInf
  | NegInf, _ | _, NegInf => NegInf
  end.

Definition sub (a b : number) : number := add a (neg b).

Definition mul (a b : number) : number :=
  match a, b with
  | NaN, _ | _, NaN => NaN
  | Fin p, Fin q => Fin (p * q)
  | Fin p, PosInf | PosInf, Fin p =>
      if is_zero p then NaN else if is_neg p then NegInf else PosInf
  | Fin p, NegInf | NegInf, Fin p =>
      if is_zero p then NaN else if is_neg p then PosInf else NegInf
  | PosInf, PosInf | NegInf, NegInf => PosInf
  | PosInf, NegInf | NegInf, PosInf => NegInf
  end.

(** The nearest integer, a half going up. *)
Definition round (a : number) : number :=
  match a with
  | Fin q => of_Z (Qfloor (q + (1 # 2)))
  | other => other
  end.

End Num.

(** ** Values *)

Inductive jsval :=
  | JNull
  | JBool (b : bool)
  | JNum (n : number)
  | JStr (s : string)
  | JArr (l : list jsval)
  | JObj (o : gmap string jsval).

(** A plain object: its own enumerable properties. *)
Abbreviation obj := (gmap string jsval).

(** An object literal [{k1: v1, ...}] with distinct keys. *)
Definition object (kvs : list (string * jsval)) : obj := list_to_map kvs.

(** ToBoolean; [None] is [undefined]. *)
Definition truthy (v : option jsval) : bool :=
  match v with
  | None | Some JNull => false
  | Some (JBool b) => b
  | Some (JNum n) => Num.truthy n
  | Some (JStr s) => negb (bool_decide (s = ""))
  | Some (JArr _) | Some (JObj _) => true
  end.

(** [a || b] *)
Definition or_else (a : option jsval) (b : jsval) : jsval :=
  match a with
  | Some v => if truthy a then v else b
  | None => b
  end.

(** [a ?? b] *)
Definition coalesce (a : option jsval) (b : jsval) : jsval :=
  match a with
  | None | Some JNull => b
  | Some v => v
  end.

(** Property access [v.k] on a value that came out of [JSON.parse], for a name
    [k] that is neither an array index nor a built-in property.  The server
    never applies it to null: a parsed request body is an object or an array,
    and the thresholds it reads from are truthy. *)
Definition get (v : jsval) (k : string) : option jsval :=
  match v with
  | JObj o => o !! k
  | _ => None
  end.

(** [v === s] against a string. *)
Definition is_string (v : option jsval) (s : string) : bool :=
  match v with
  | Some (JStr s') => bool_decide (s' = s)
  | _ => false
  end.

(** [typeof v === 'number' ? v : null], kept as an optional number. *)
Definition number_or_null (v : option jsval) : option number :=
  match v with
  | Some (JNum n) => Some n
  | _ => None
  end.

Definition reading (r : option number) : jsval :=
  match r with
  | Some n => JNum n
  | None => JNull
  end.

(** The own enumerable properties copied by the spread [{...v}]: those of an
    object, and the indices of an array. *)
Definition spread (v : jsval) : obj :=
  match v with
  | JObj o => o
  | JArr l => list_to_map (imap (λ i x, (pretty i, x)) l)
  | _ => ∅
  end.

(** ** [parseInt(s, 10)] *)

Definition is_digit (c : ascii) : bool :=
  let n := nat_of_ascii c in (48 <=? n)%nat && (n <=? 57)%nat.

Definition digit_value (c : ascii) : Z := Z.of_nat (nat_of_ascii c) - 48.

(** White space and line terminators in the one-byte range. *)
Definition is_space (c : ascii) : bool :=
  let n := nat_of_ascii c in
  ((9 <=? n)%nat && (n <=? 13)%nat) || (n =? 32)%nat.

(** The remaining white space, by its UTF-8 bytes: U+00A0, U+1680,
    U+2000 to U+200A, U+2028, U+2029, U+202F, U+205F, U+3000 and U+FEFF. *)
Definition is_space2 (a b : ascii) : bool :=
  (nat_of_ascii a =? 194)%nat && (nat_of_ascii b =? 160)%nat.

Definition is_space3 (a b c : ascii) : bool :=
  let '(x, y, z) := (nat_of_ascii a, nat_of_ascii b, nat_of_ascii c) in
  ((x =? 225) && (y =? 154) && (z =? 128))%nat
  || ((x =? 226) && (y =? 128) &&
      (((128 <=? z) && (z <=? 138)) || (z =? 168) || (z =? 169) || (z =? 175)))%nat
  || ((x =? 226) && (y =? 129) && (z =? 159))%nat
  || ((x =? 227) && (y =? 128) && (z =? 128))%nat
  || ((x =? 239) && (y =? 187) && (z =? 191))%nat.

Fixpoint trim_start (s : string) : string :=
  match s with
  | String a r =>
      if is_space a then trim_start r
      else
        match r with
        | String b r2 =>
            if is_space2 a b then trim_start r2
            else
              match r2 with
              | String c r3 => if is_space3 a b c then trim_start r3 else s
              | EmptyString => s
              end
        | EmptyString => s
        end
  | EmptyString => s
  end.

(** The value of the longest prefix of decimal digits; [None] if it is empty. *)
Fixpoint leading_digits (s : string) (acc : option Z) : option Z :=
  match s with
  | String c r =>
      if is_digit c
      then leading_digits r (Some (10 * default 0 acc + digit_value c))
      else acc
  | EmptyString => acc
  end.

Definition parseInt (s : string) : number :=
  let s := trim_start s in
  let '(sign, s) :=
    match s with
    | String "-" r => (-1, r)
    | String "+" r => (1, r)
    | _ => (1, s)
    end in
  match leading_digits s None with
  | Some n => Num.of_Z (sign * n)
  | None => NaN
  end.

(** ** Arrays: the order of [sort] and [slice] with one argument *)

Section Arrays.
Context {A : Type}.

(** [insert_sorted cmp x l] puts [x] in front of the first element it does
    not have to follow; a comparator result that is NaN counts as 0. *)
Fixpoint insert_sorted (cmp : A → A → number) (x : A) (l : list A) : list A :=
  match l with
  | [] => [x]
  | y :: l' =>
      if Num.gtb (cmp x y) (Num.of_Z 0)
      then y :: insert_sorted cmp x l'
      else x :: l
  end.

(** The stable ascending order of [l], here by insertion: the result
    ECMAScript prescribes for [l.sort(cmp)] when [cmp] is a consistent
    comparator. *)
Definition sort (cmp : A → A → number) (l : list A) : list A :=
  foldr (insert_sorted cmp) [] l.

(** A comparator that orders the elements of [l] by an integer key, as the
    difference of two valid dates does; such a comparator is consistent. *)
Definition by_key (cmp : A → A → number) (l : list A) : Prop :=
  ∃ key : A → Z, ∀ a b, a ∈ l → b ∈ l → cmp a b = Num.of_Z (key a - key b).

(** [l.slice(start)] *)
Definition slice (start : number) (l : list A) : list A :=
  let len := Z.of_nat (length l) in
  let k :=
    match Num.to_integer start with
    | NegInf => 0
    | PosInf => len
    | Fin q =>
        let rel := Qnum q in
        if rel <? 0 then Z.max (len + rel) 0 else Z.min rel len
    | NaN => 0
    end in
  drop (Z.to_nat k) l.

End Arrays.

(** ** The host: built-ins of the JavaScript runtime the server relies on *)

Class Runtime := {
  (** ToNumber on a String *)
  StringToNumber : string → number;
  (** ToNumber and ToString on an array or an object, through ToPrimitive *)
  ObjectToNumber : jsval → number;
  ObjectToString : jsval → string;
  (** Number::toString, used for the finite numbers that are not integers
      below [10^21] in magnitude *)
  NumberToString : Q → string;
  (** [n.toFixed(1)] *)
  toFixed1 : number → string;
  (** [a + b], [a - b], [a * b] and [a / b] on two Numbers, rounded and
      overflowing as doubles do, and [Math.round(a)] *)
  Number_add : number → number → number;
  Number_subtract : number → number → number;
  Number_multiply : number → number → number;
  Number_divide : number → number → number;
  Math_round : number → number;
  (** the time value in milliseconds of [new Date(v)]; [None] is an invalid date *)
  Date_new : option jsval → option Z;
  (** [d.toISOString()] of the date with the given time value *)
  toISOString : Z → string;
  (** [l.sort(cmp)].  The engine rearranges the elements; with a comparator
      that orders them by a key the result is the stable ascending order,
      and with one that answers NaN for some pairs the order is the
      engine's own. *)
  Array_sort : ∀ {A : Type}, (A → A → number) → list A → list A;
  Array_sort_permutation :
    ∀ {A : Type} (cmp : A → A → number) (l : list A), Array_sort cmp l ≡ₚ l;
  Array_sort_by_key :
    ∀ {A : Type} (cmp : A → A → number) (l : list A),
      by_key cmp l → Array_sort cmp l = sort cmp l;
}.

(** [process.env]: each variable is a string or unset. *)
Record Env := {
  ALERT_EMAIL_TO : option string;
  ALERT_EMAIL_FROM : option string;
  SMTP_HOST : option string;
  SMTP_USER : option string;
  ABNORMAL_ALERT_MIN_GAP_MINUTES : option string;
  MAINTENANCE_LOOKAHEAD_DAYS : option string;
}.

(** [v || d] on an optional string: the empty string is falsy. *)
Definition str_or (v : option string) (d : string) : string :=
  match v with
  | Some s => if bool_decide (s = "") then d else s
  | None => d
  end.

Definition nl : string := String "010" "".

Section Coercions.
Context `{Runtime}.

Definition is_integer (q : Q) : bool := Z.rem (Qnum q) (Zpos (Qden q)) =? 0.

Definition number_to_string (n : number) : string :=
  match n with
  | NaN => "NaN"
  | NegInf => "-Infinity"
  | PosInf => "Infinity"
  | Fin q =>
      let z := Z.quot (Qnum q) (Zpos (Qden q)) in
      if is_integer q && (Z.abs z <? 10 ^ 21) then pretty z else NumberToString q
  end.

(** ToString, as applied by a template literal. *)
Definition ToString (v : option jsval) : string :=
  match v with
  | None => "undefined"
  | Some JNull => "null"
  | Some (JBool b) => if b then "true" else "false"
  | Some (JNum n) => number_to_string n
  | Some (JStr s) => s
  | Some o => ObjectToString o
  end.

Definition ToNumber (v : option jsval) : number :=
  match v with
  | None => NaN
  | Some JNull => Num.of_Z 0
  | Some (JBool b) => Num.of_Z (if b then 1 else 0)
  | Some (JNum n) => n
  | Some (JStr s) => StringToNumber s
  | Some o => ObjectToNumber o
  end.

(** [a - b] on two dates. *)
Definition date_sub (a b : option Z) : number :=
  match a, b with
  | Some x, Some y => Num.of_Z (x - y)
  | _, _ => NaN
  end.

End Coercions.

(** ** The store and the effects of a handler *)

Record Db := { machines : list obj; vitals : list obj }.

(** What a call to [sendAlertEmail] does. *)
Inductive notice :=
  | NoRecipient (subject text : string)
  | Simulated (subject text to : string)
  | SendMail (from : option string) (to subject text : string).

(** [JSON.parse(JSON.stringify(v))], the value read back from the text
    written for [v]: NaN and the infinities are written as [null]. *)
Fixpoint reread (v : jsval) : jsval :=
  match v with
  | JNum (Fin _) => v
  | JNum _ => JNull
  | JArr l => JArr (reread <$> l)
  | JObj o => JObj (reread <$> o)
  | _ => v
  end.

Definition reread_object (o : obj) : obj := reread <$> o.

(** What [loadDb] reads after [saveDb(d)]. *)
Definition written (d : Db) : Db :=
  {| machines := reread_object <$> machines d;
     vitals := reread_object <$> vitals d |}.

(** [db] is the in-memory store, [file] the content of [db.json] as [loadDb]
    would read it, [outbox] the calls to [sendAlertEmail] so far. *)
Record world := { db : Db; file : Db; outbox : list notice }.

(** An HTTP response: status code and JSON body, if any. *)
Record response := { status : Z; body : option jsval }.

Definition M (A : Type) : Type := world → A * world.

#[export] Instance M_ret : MRet M := λ A x w, (x, w).
#[export] Instance M_bind : MBind M :=
  λ A B f m w, let '(x, w') := m w in f x w'.

Definition gets {A} (f : Db → A) : M A := λ w, (f (db w), w).

Definition modify (f : Db → Db) : M unit :=
  λ w, ((), {| db := f (db w); file := file w; outbox := outbox w |}).

(** [saveDb(db)]: [fs.writeFileSync(DB_FILE, JSON.stringify(db, null, 2))] *)
Definition saveDb : M unit :=
  λ w, ((), {| db := db w; file := written (db w); outbox := outbox w |}).

Definition emit (n : notice) : M unit :=
  λ w, ((), {| db := db w; file := file w; outbox := outbox w ++ [n] |}).

Definition set_machines (ms : list obj) : Db → Db :=
  λ d, {| machines := ms; vitals := vitals d |}.

Definition set_vitals (vs : list obj) : Db → Db :=
  λ d, {| machines := machines d; vitals := vs |}.

(** [machine.k = v] on the machine at index [idx] of [db.machines]. *)
Definition assign (idx : nat) (k : string) (v : jsval) : Db → Db :=
  λ d, set_machines (alter (insert k v) idx (machines d)) d.

(** [res.status(code).json(v)] *)
Definition json (code : Z) (v : jsval) : response :=
  {| status := code; body := Some v |}.

Definition not_found : response :=
  json 404 (JObj (object [("message", JStr "Machine not found")])).

Definition validation_error : response :=
  json 400 (JObj (object
    [("message", JStr "name and nextMaintenanceDate are required")])).

(** [m.id === id] and [v.machineId === id] *)
Definition has_id (id : string) (m : obj) : Prop := Is_true (is_string (m !! "id") id).
Definition of_machine (id : string) (v : obj) : Prop :=
  Is_true (is_string (v !! "machineId") id).

#[export] Instance has_id_dec id m : Decision (has_id id m) := _.
#[export] Instance of_machine_dec id v : Decision (of_machine id v) := _.

(** [db.machines.findIndex(m => m.id === id)] together with the element found. *)
Definition find_machine (id : string) (ms : list obj) : option (nat * obj) :=
  list_find (has_id id) ms.

(** ** The server *)

Definition default_thresholds : obj :=
  object [("temperature", JNum (Num.of_Z 80));
          ("vibration", JNum (Num.of_Z 10));
          ("pressure", JNum (Num.of_Z 200))].

(** [machine.thresholds || { temperature: 80, vibration: 10, pressure: 200 }] *)
Definition thresholds_of (machine : obj) : jsval :=
  or_else (machine !! "thresholds") (JObj default_thresholds).

(** Where the vitals handler stands when it gives way to the event loop: it
    has answered, or it waits at [await sendAlertEmail(...)] for the mail
    transport, holding on to its locals [machine] (by the index of that
    object in [db.machines]), [vital], [abnormal] and [now]. *)
Inductive progress :=
  | Answered (r : response)
  | Waiting (idx : nat) (vital : obj) (abnormal : bool) (now : Z).

Section Server.
Context `{Runtime} (env : Env).

Definition sendAlertEmail (subject text : string) : M unit :=
  match ALERT_EMAIL_TO env with
  | None => emit (NoRecipient subject text)
  | Some to =>
      if bool_decide (to = "") then emit (NoRecipient subject text)
      else if bool_decide (str_or (SMTP_HOST env) "" = "")
      then emit (Simulated subject text to)
      else
        let from :=
          match ALERT_EMAIL_FROM env with
          | Some f => if bool_decide (f = "") then SMTP_USER env else Some f
          | None => SMTP_USER env
          end in
        emit (SendMail from to subject text)
  end.

(** [GET /api/machines] *)
Definition get_machines : M response :=
  ms ← gets machines;
  mret (json 200 (JArr (JObj <$> ms))).

(** [POST /api/machines]; [id] is the result of [generateId()] and [now]
    the time value of [new Date()].  Past the guard [name] and
    [nextMaintenanceDate] are truthy, so the [or_else] on them is the value
    itself. *)
Definition post_machines (req_body : jsval) (id : string) (now : Z) : M response :=
  let name := get req_body "name" in
  let code := get req_body "code" in
  let location := get req_body "location" in
  let nextMaintenanceDate := get req_body "nextMaintenanceDate" in
  let responsibleEmail := get req_body "responsibleEmail" in
  let thresholds := get req_body "thresholds" in
  if negb (truthy name) || negb (truthy nextMaintenanceDate) then
    mret validation_error
  else
    let machine := object
      [("id", JStr id);
       ("name", or_else name JNull);
       ("code", or_else code (JStr ""));
       ("location", or_else location (JStr ""));
       ("nextMaintenanceDate", or_else nextMaintenanceDate JNull);
       ("responsibleEmail", or_else responsibleEmail (JStr ""));
       ("thresholds", or_else thresholds (JObj default_thresholds));
       ("lastMaintenanceReminderSent", JNull);
       ("lastAbnormalAlertSent", JNull);
       ("createdAt", JStr (toISOString now))] in
    modify (λ d, set_machines (machines d ++ [machine]) d);;
    saveDb;;
    mret (json 201 (JObj machine)).

(** [PUT /api/machines/:id] *)
Definition put_machine (id : string) (req_body : jsval) : M response :=
  ms ← gets machines;
  match find_machine id ms with
  | None => mret not_found
  | Some (idx, old) =>
      let updated := <["id" := JStr id]> (spread req_body ∪ old) in
      modify (λ d, set_machines (<[idx := updated]> (machines d)) d);;
      saveDb;;
      mret (json 200 (JObj updated))
  end.

(** [DELETE /api/machines/:id] *)
Definition delete_machine (id : string) : M response :=
  ms ← gets machines;
  match find_machine id ms with
  | None => mret not_found
  | Some (idx, _) =>
      modify (λ d, set_machines (delete idx (machines d)) d);;
      modify (λ d, set_vitals (filter (λ v, ¬ of_machine id v) (vitals d)) d);;
      saveDb;;
      mret {| status := 204; body := None |}
  end.

Definition by_timestamp (a b : obj) : number :=
  date_sub (Date_new (a !! "timestamp")) (Date_new (b !! "timestamp")).

(** [GET /api/machines/:id/vitals]; [limit] is [req.query.limit], a string
    when the parameter is given once. *)
Definition get_vitals (id : string) (limit : option string) : M response :=
  let limit := parseInt (str_or limit "50") in
  vs ← gets vitals;
  let vitals :=
    slice (Num.neg limit) (Array_sort by_timestamp (filter (of_machine id) vs)) in
  mret (json 200 (JArr (JObj <$> vitals))).

(** [vital.x !== null && vital.x > thresholds.x]: the left operand is a
    Number, so the comparison is numeric. *)
Definition exceeds (x : option number) (threshold : option jsval) : bool :=
  match x with
  | Some n => Num.gtb n (ToNumber threshold)
  | None => false
  end.

Definition reason (label unit : string) (x : option number)
    (threshold : option jsval) : string :=
  label +:+ " " +:+ ToString (Some (reading x)) +:+ unit +:+ " > "
    +:+ ToString threshold +:+ unit.

(** The three threshold tests of the vitals handler, with its two locals
    [abnormal] and [reasons]. *)
Definition check_thresholds (temperature vibration pressure : option number)
    (thresholds : jsval) : bool * list string :=
  let abnormal := false in
  let reasons := [] in
  let '(abnormal, reasons) :=
    if exceeds temperature (get thresholds "temperature")
    then (true, reasons ++
            [reason "Temperature" "°C" temperature (get thresholds "temperature")])
    else (abnormal, reasons) in
  let '(abnormal, reasons) :=
    if exceeds vibration (get thresholds "vibration")
    then (true, reasons ++
            [reason "Vibration" "mm/s" vibration (get thresholds "vibration")])
    else (abnormal, reasons) in
  let '(abnormal, reasons) :=
    if exceeds pressure (get thresholds "pressure")
    then (true, reasons ++
            [reason "Pressure" "bar" pressure (get thresholds "pressure")])
    else (abnormal, reasons) in
  (abnormal, reasons).

(** [v ? new Date(v) : null] *)
Definition date_or_null (v : option jsval) : option (option Z) :=
  if truthy v then Some (Date_new v) else None.

(** [!lastAlert || (now - lastAlert) / (1000 * 60) > minGapMinutes] *)
Definition alert_due (now : Z) (lastAlert : option (option Z))
    (minGapMinutes : number) : bool :=
  match lastAlert with
  | None => true
  | Some d =>
      Num.gtb (Num.div (date_sub (Some now) d) (Num.of_Z (1000 * 60))) minGapMinutes
  end.

Definition alert_subject (machine : obj) : string :=
  "⚠️ Abnormal condition detected on machine: " +:+ ToString (machine !! "name").

Definition alert_text (machine vital : obj) (reasons : list string) : string :=
  "Machine: " +:+ ToString (machine !! "name") +:+ nl +:+
  "Code: " +:+ ToString (Some (or_else (machine !! "code") (JStr "-"))) +:+ nl +:+
  "Location: " +:+ ToString (Some (or_else (machine !! "location") (JStr "-"))) +:+ nl +:+
  "Time: " +:+ ToString (vital !! "timestamp") +:+ nl +:+
  nl +:+
  "Reasons:" +:+ nl +:+
  "- " +:+ String.concat (nl +:+ "- ") reasons +:+ nl +:+
  nl +:+
  "Latest reading:" +:+ nl +:+
  "- Temperature: " +:+ ToString (Some (coalesce (vital !! "temperature") (JStr "-")))
    +:+ " °C" +:+ nl +:+
  "- Vibration: " +:+ ToString (Some (coalesce (vital !! "vibration") (JStr "-")))
    +:+ " mm/s" +:+ nl +:+
  "- Pressure: " +:+ ToString (Some (coalesce (vital !! "pressure") (JStr "-")))
    +:+ " bar" +:+ nl.

(** The object literal [vital] of the vitals handler. *)
Definition make_vital (id : string) (req_body : jsval) (vid : string) (t0 : Z) : obj :=
  object
    [("id", JStr vid);
     ("machineId", JStr id);
     ("temperature", reading (number_or_null (get req_body "temperature")));
     ("vibration", reading (number_or_null (get req_body "vibration")));
     ("pressure", reading (number_or_null (get req_body "pressure")));
     ("timestamp", or_else (get req_body "timestamp") (JStr (toISOString t0)))].

(** [parseInt(process.env.ABNORMAL_ALERT_MIN_GAP_MINUTES || '30', 10)] *)
Definition minGapMinutes : number :=
  parseInt (str_or (ABNORMAL_ALERT_MIN_GAP_MINUTES env) "30").

(** [parseInt(process.env.MAINTENANCE_LOOKAHEAD_DAYS || '7', 10)] *)
Definition lookaheadDays : number :=
  parseInt (str_or (MAINTENANCE_LOOKAHEAD_DAYS env) "7").

(** Whether a call to [sendAlertEmail] gets to [await transporter.sendMail]:
    both a recipient and a mail host are configured.  Otherwise the call
    returns without yielding, and awaiting it lets no other event in. *)
Definition awaits_transport : bool :=
  negb (bool_decide (str_or (ALERT_EMAIL_TO env) "" = ""))
  && negb (bool_decide (str_or (SMTP_HOST env) "" = "")).

(** The end of the vitals handler: [saveDb(db)] and the answer. *)
Definition post_vitals_end (vital : obj) (abnormal : bool) : M response :=
  saveDb;;
  mret (json 201 (JObj (object [("vital", JObj vital); ("abnormal", JBool abnormal)]))).

(** The vitals handler after [await sendAlertEmail(...)]: the stamp on
    [machine], then the end.  [machine] is the object found before the
    [await], by its index; [None] when [db.machines] does not hold that
    object any more, in which case the stamp is lost. *)
Definition post_vitals_resume (machine : option nat) (vital : obj)
    (abnormal : bool) (now : Z) : M response :=
  match machine with
  | Some idx => modify (assign idx "lastAbnormalAlertSent" (JStr (toISOString now)))
  | None => mret ()
  end;;
  post_vitals_end vital abnormal.

(** [POST /api/machines/:id/vitals] up to the point where it gives way;
    [vid] is the result of [generateId()], [t0] the time value of the
    [new Date()] that defaults the timestamp and [now] that of the
    [new Date()] of the alert. *)
Definition post_vitals_begin (id : string) (req_body : jsval) (vid : string)
    (t0 now : Z) : M progress :=
  ms ← gets machines;
  match find_machine id ms with
  | None => mret (Answered not_found)
  | Some (idx, machine) =>
      let temperature := number_or_null (get req_body "temperature") in
      let vibration := number_or_null (get req_body "vibration") in
      let pressure := number_or_null (get req_body "pressure") in
      let vital := make_vital id req_body vid t0 in
      modify (λ d, set_vitals (vitals d ++ [vital]) d);;
      let thresholds := thresholds_of machine in
      let '(abnormal, reasons) :=
        check_thresholds temperature vibration pressure thresholds in
      if abnormal then
        let lastAlert := date_or_null (machine !! "lastAbnormalAlertSent") in
        if alert_due now lastAlert minGapMinutes then
          sendAlertEmail (alert_subject machine) (alert_text machine vital reasons);;
          if awaits_transport then mret (Waiting idx vital abnormal now)
          else r ← post_vitals_resume (Some idx) vital abnormal now; mret (Answered r)
        else r ← post_vitals_end vital abnormal; mret (Answered r)
      else r ← post_vitals_end vital abnormal; mret (Answered r)
  end.

(** [POST /api/machines/:id/vitals] when nothing else is taken up while it
    waits for the mail transport: both halves in one go. *)
Definition post_vitals (id : string) (req_body : jsval) (vid : string)
    (t0 now : Z) : M response :=
  p ← post_vitals_begin id req_body vid t0 now;
  match p with
  | Answered r => mret r
  | Waiting idx vital abnormal now => post_vitals_resume (Some idx) vital abnormal now
  end.

(** [!lastSent || (now - lastSent) / (1000 * 60 * 60 * 24) >= 1] *)
Definition reminder_due (now : Z) (lastSent : option (option Z)) : bool :=
  match lastSent with
  | None => true
  | Some d =>
      Num.geb (Num.div (date_sub (Some now) d) (Num.of_Z (1000 * 60 * 60 * 24)))
        (Num.of_Z 1)
  end.

Definition reminder_subject (machine : obj) : string :=
  "🛠️ Maintenance due soon for machine: " +:+ ToString (machine !! "name").

Definition reminder_text (machine : obj) (diffDays : number) : string :=
  "Machine: " +:+ ToString (machine !! "name") +:+ nl +:+
  "Code: " +:+ ToString (Some (or_else (machine !! "code") (JStr "-"))) +:+ nl +:+
  "Location: " +:+ ToString (Some (or_else (machine !! "location") (JStr "-"))) +:+ nl +:+
  nl +:+
  "Next maintenance date: " +:+ ToString (machine !! "nextMaintenanceDate") +:+ nl +:+
  "Days until due: " +:+ toFixed1 diffDays +:+ nl +:+
  nl +:+
  "Please schedule maintenance.".

(** [(due - now) / (1000 * 60 * 60 * 24)] *)
Definition diffDays (now : Z) (machine : obj) : number :=
  let due := Date_new (machine !! "nextMaintenanceDate") in
  Num.div (date_sub due (Some now)) (Num.of_Z (1000 * 60 * 60 * 24)).

(** The callback of [db.machines.forEach] in [checkUpcomingMaintenance]; the
    assignment to [diffDaysMessage] has no effect on the store. *)
Definition check_machine (now : Z) (idx : nat) (machine : obj) : M unit :=
  if negb (truthy (machine !! "nextMaintenanceDate")) then mret ()
  else
    if Num.leb (diffDays now machine) lookaheadDays then
      let lastSent := date_or_null (machine !! "lastMaintenanceReminderSent") in
      if reminder_due now lastSent then
        sendAlertEmail (reminder_subject machine)
          (reminder_text machine (diffDays now machine));;
        modify (assign idx "lastMaintenanceReminderSent" (JStr (toISOString now)))
      else mret ()
    else mret ().

(** [l.forEach(f)], the callback receiving the element and its index. *)
Fixpoint forEach_from {A} (f : nat → A → M unit) (i : nat) (l : list A) : M unit :=
  match l with
  | [] => mret ()
  | x :: l' => f i x;; forEach_from f (S i) l'
  end.

Definition forEach {A} (f : nat → A → M unit) (l : list A) : M unit :=
  forEach_from f 0 l.

Definition checkUpcomingMaintenance (now : Z) : M unit :=
  ms ← gets machines;
  forEach (check_machine now) ms;;
  saveDb.

(** [GET /api/health] *)
Definition get_health : M response :=
  ms ← gets machines;
  mret (json 200 (JObj (object
    [("status", JStr "ok");
     ("machines", JNum (Num.of_Z (Z.of_nat (length ms))))]))).

(** [randAround(base, spread)], [r] being the result of [Math.random()]. *)
Definition randAround (r : number) (base spread : number) : number :=
  Number_add base
    (Number_multiply
       (Number_subtract (Number_multiply r (Num.of_Z 2)) (Num.of_Z 1)) spread).

(** [Math.round(x * 10) / 10] *)
Definition one_decimal (x : number) : number :=
  Number_divide (Math_round (Number_multiply x (Num.of_Z 10))) (Num.of_Z 10).

(** The locals [temp], [vib] and [pres] of the simulation handler, each from
    one result of [Math.random()]. *)
Definition temp (thresholds : jsval) (r : number) : number :=
  randAround r
    (Number_subtract (ToNumber (get thresholds "temperature")) (Num.of_Z 10))
    (Num.of_Z 8).

Definition vib (thresholds : jsval) (r : number) : number :=
  randAround r
    (Number_subtract (ToNumber (get thresholds "vibration")) (Num.of_Z 3))
    (Num.of_Z 3).

Definition pres (thresholds : jsval) (r : number) : number :=
  randAround r
    (Number_subtract (ToNumber (get thresholds "pressure")) (Num.of_Z 30))
    (Num.of_Z 20).

(** [POST /api/machines/:id/vitals/simulate]; [r1], [r2] and [r3] are the
    results of [Math.random()] in the order they are drawn, [vid] is the
    result of [generateId()] and [now] the time value of [new Date()]. *)
Definition post_simulate (id : string) (vid : string) (r1 r2 r3 : Q) (now : Z)
    : M response :=
  ms ← gets machines;
  match find_machine id ms with
  | None => mret not_found
  | Some (_, machine) =>
      let thresholds := thresholds_of machine in
      let vital := object
        [("id", JStr vid);
         ("machineId", JStr id);
         ("temperature", JNum (one_decimal (temp thresholds (Fin r1))));
         ("vibration", JNum (one_decimal (vib thresholds (Fin r2))));
         ("pressure", JNum (one_decimal (pres thresholds (Fin r3))));
         ("timestamp", JStr (toISOString now))] in
      modify (λ d, set_vitals (vitals d ++ [vital]) d);;
      saveDb;;
      mret (json 201 (JObj vital))
  end.

(** A vitals handler that waits for the mail transport, with the locals it
    holds on to.  [target] is the index at which [db.machines] holds its
    [machine] object, if it still does. *)
Record waiting := {
  target : option nat;
  held_vital : obj;
  held_abnormal : bool;
  held_now : Z;
}.

(** What reaches the server: a request on one of the routes, or the timer of
    [setInterval] firing. *)
Inductive event :=
  | GetMachines
  | PostMachines (req_body : jsval) (id : string) (now : Z)
  | PutMachine (id : string) (req_body : jsval)
  | DeleteMachine (id : string)
  | GetVitals (id : string) (limit : option string)
  | PostVitals (id : string) (req_body : jsval) (vid : string) (t0 now : Z)
  | PostSimulate (id : string) (vid : string) (r1 r2 r3 : Q) (now : Z)
  | GetHealth
  | Timer (now : Z).

(** Where the object at index [j] of [db.machines] is after an event: an
    update puts a new object in the place of the machine it finds, a
    deletion takes the machine it finds out and moves the later ones down;
    nothing else replaces or moves a machine. *)
Definition retarget (e : event) (ms : list obj) (t : option nat) : option nat :=
  match t with
  | Some j =>
      match e with
      | PutMachine id _ =>
          match find_machine id ms with
          | Some (idx, _) => if decide (j = idx) then None else Some j
          | None => Some j
          end
      | DeleteMachine id =>
          match find_machine id ms with
          | Some (idx, _) =>
              if decide (j = idx) then None
              else if decide (idx < j)%nat then Some (pred j) else Some j
          | None => Some j
          end
      | _ => Some j
      end
  | None => None
  end.

(** The handler registered for an event; the timer answers nobody. *)
Definition serve (e : event) : M (option response) :=
  match e with
  | GetMachines => r ← get_machines; mret (Some r)
  | PostMachines b id now => r ← post_machines b id now; mret (Some r)
  | PutMachine id b => r ← put_machine id b; mret (Some r)
  | DeleteMachine id => r ← delete_machine id; mret (Some r)
  | GetVitals id limit => r ← get_vitals id limit; mret (Some r)
  | PostVitals id b vid t0 now => r ← post_vitals id b vid t0 now; mret (Some r)
  | PostSimulate id vid r1 r2 r3 now =>
      r ← post_simulate id vid r1 r2 r3 now; mret (Some r)
  | GetHealth => r ← get_health; mret (Some r)
  | Timer now => checkUpcomingMaintenance now;; mret None
  end.

(** The server after a sequence of events, each handled to its end before
    the next is taken up. *)
Definition run (es : list event) (w : world) : world :=
  foldl (λ w e, snd (serve e w)) w es.

(** The event loop in general: an event is taken up, or the mail transport
    answers the [k]-th of the vitals handlers that wait for it. *)
Inductive step :=
  | Arrives (e : event)
  | Settles (k : nat).

(** The server between two steps: the store, the file and the outbox, and
    the vitals handlers that wait, oldest first. *)
Record server := { state : world; pending : list waiting }.

Definition retargeted (e : event) (ms : list obj) (h : waiting) : waiting :=
  {| target := retarget e ms (target h); held_vital := held_vital h;
     held_abnormal := held_abnormal h; held_now := held_now h |}.

Definition advance (s : step) (sv : server) : option response * server :=
  match s with
  | Arrives (PostVitals id b vid t0 now) =>
      let '(p, w) := post_vitals_begin id b vid t0 now (state sv) in
      match p with
      | Answered r => (Some r, {| state := w; pending := pending sv |})
      | Waiting idx vital abnormal now =>
          (None,
           {| state := w;
              pending := pending sv ++
                [{| target := Some idx; held_vital := vital;
                    held_abnormal := abnormal; held_now := now |}] |})
      end
  | Arrives e =>
      let '(r, w) := serve e (state sv) in
      (r, {| state := w;
             pending := retargeted e (machines (db (state sv))) <$> pending sv |})
  | Settles k =>
      match pending sv !! k with
      | Some h =>
          let '(r, w) :=
            post_vitals_resume (target h) (held_vital h) (held_abnormal h)
              (held_now h) (state sv) in
          (Some r, {| state := w; pending := delete k (pending sv) |})
      | None => (None, sv)
      end
  end.

Definition schedule (ss : list step) (sv : server) : server :=
  foldl (λ sv s, snd (advance s sv)) sv ss.

(** The schedule in which every event is handled to its end before the
    next is taken up. *)
Definition in_turn (es : list event) : list step :=
  es ≫= λ e,
    match e with
    | PostVitals _ _ _ _ _ => [Arrives e; Settles 0]
    | _ => [Arrives e]
    end.

End Server.

(** ** The client *)

Section Client.
Context `{Runtime}.

(** [statusForMachine(machine)], [now] being the time value of [new Date()]. *)
Definition statusForMachine (machine : obj) (now : Z) : obj :=
  if negb (truthy (machine !! "nextMaintenanceDate")) then
    object [("label", JStr "Unknown"); ("color", JStr "#6b7280")]
  else
    let due := Date_new (machine !! "nextMaintenanceDate") in
    let diffDays :=
      Num.div (date_sub due (Some now)) (Num.of_Z (1000 * 60 * 60 * 24)) in
    if Num.ltb diffDays (Num.of_Z 0) then
      object [("label", JStr "Overdue"); ("color", JStr "#ef4444")]
    else if Num.leb diffDays (Num.of_Z 3) then
      object [("label", JStr "Due soon"); ("color", JStr "#f97316")]
    else if Num.leb diffDays (Num.of_Z 7) then
      object [("label", JStr "Planned"); ("color", JStr "#eab308")]
    else
      object [("label", JStr "OK"); ("color", JStr "#22c55e")].

(** The state update of [handleSimulateVital]:
    [prev => [...prev, res.data].slice(-50)] *)
Definition with_new_vital (prev : list jsval) (data : jsval) : list jsval :=
  slice (Num.neg (Num.of_Z 50)) (prev ++ [data]).

End Client.

(** ** A runtime to run the model on concrete requests

    It answers like JavaScript on decimal integers and on dates written in the
    format of [toISOString] with a four-digit year; it is arbitrary on the
    rest, which the examples do not reach. *)

Module Reference.

Definition ms_per_day : Z := 86400000.

(** Days since 1970-01-01 of a date of the proleptic Gregorian calendar. *)
Definition days_from_civil (y m d : Z) : Z :=
  let y := if m <=? 2 then y - 1 else y in
  let era := y / 400 in
  let yoe := y - era * 400 in
  let doy := (153 * (if 2 <? m then m - 3 else m + 9) + 2) / 5 + d - 1 in
  let doe := yoe * 365 + yoe / 4 - yoe / 100 + doy in
  era * 146097 + doe - 719468.

Definition civil_from_days (z : Z) : Z * Z * Z :=
  let z := z + 719468 in
  let era := z / 146097 in
  let doe := z - era * 146097 in
  let yoe := (doe - doe / 1460 + doe / 36524 - doe / 146096) / 365 in
  let doy := doe - (365 * yoe + yoe / 4 - yoe / 100) in
  let mp := (5 * doy + 2) / 153 in
  let d := doy - (153 * mp + 2) / 5 + 1 in
  let m := if mp <? 10 then mp + 3 else mp - 9 in
  (yoe + era * 400 + (if m <=? 2 then 1 else 0), m, d).

Fixpoint pad (width : nat) (z : Z) : string :=
  match width with
  | O => ""
  | S w => pad w (z / 10) +:+ String (ascii_of_nat (Z.to_nat (48 + z mod 10))) ""
  end.

Definition iso (t : Z) : string :=
  let '(y, m, d) := civil_from_days (t / ms_per_day) in
  let r := t mod ms_per_day in
  pad 4 y +:+ "-" +:+ pad 2 m +:+ "-" +:+ pad 2 d +:+ "T" +:+
  pad 2 (r / 3600000) +:+ ":" +:+ pad 2 (r / 60000 mod 60) +:+ ":" +:+
  pad 2 (r / 1000 mod 60) +:+ "." +:+ pad 3 (r mod 1000) +:+ "Z".

(** The number written by exactly [n] digits at the head of [s], and the rest. *)
Fixpoint take_digits (n : nat) (s : string) (acc : Z) : option (Z * string) :=
  match n, s with
  | O, _ => Some (acc, s)
  | S n', String c r =>
      if is_digit c then take_digits n' r (10 * acc + digit_value c) else None
  | S _, EmptyString => None
  end.

Definition expect (c : ascii) (s : string) : option string :=
  match s with
  | String c' r => if Ascii.eqb c c' then Some r else None
  | EmptyString => None
  end.

Definition parse_iso (s : string) : option Z :=
  '(y, s) ← take_digits 4 s 0; s ← expect "-" s;
  '(m, s) ← take_digits 2 s 0; s ← expect "-" s;
  '(d, s) ← take_digits 2 s 0; s ← expect "T" s;
  '(hh, s) ← take_digits 2 s 0; s ← expect ":" s;
  '(mm, s) ← take_digits 2 s 0; s ← expect ":" s;
  '(ss, s) ← take_digits 2 s 0; s ← expect "." s;
  '(ms, s) ← take_digits 3 s 0; s ← expect "Z" s;
  if bool_decide (s = "")
  then Some (days_from_civil y m d * ms_per_day
             + hh * 3600000 + mm * 60000 + ss * 1000 + ms)
  else None.

Definition time_clip (t : Z) : option Z :=
  if Z.abs t <=? 8640000000000000 then Some t else None.

Definition date (v : option jsval) : option Z :=
  match v with
  | Some JNull => Some 0
  | Some (JBool b) => Some (if b then 1 else 0)
  | Some (JNum (Fin q)) => time_clip (Z.quot (Qnum q) (Zpos (Qden q)))
  | Some (JStr s) => parse_iso s
  | _ => None
  end.

Definition string_to_number (s : string) : number :=
  if bool_decide (trim_start s = "") then Num.of_Z 0 else parseInt s.

(** Its arithmetic is without rounding and its [sort] is the insertion sort
    whatever the comparator. *)
#[export, refine] Instance runtime : Runtime := {|
  StringToNumber := string_to_number;
  ObjectToNumber := λ _, NaN;
  ObjectToString := λ _, "[object Object]";
  NumberToString := λ q, pretty (Qnum q) +:+ "/" +:+ pretty (Zpos (Qden q));
  toFixed1 := λ n,
    match Num.to_integer n with
    | Fin q => pretty (Qnum q) +:+ ".0"
    | _ => "NaN"
    end;
  Number_add := Num.add;
  Number_subtract := Num.sub;
  Number_multiply := Num.mul;
  Number_divide := Num.div;
  Math_round := Num.round;
  Date_new := date;
  toISOString := iso;
  Array_sort := @sort;
|}.
Proof.
  - intros A cmp l. induction l as [|x l IH]; [reflexivity|].
    cbn [sort foldr]. fold (sort cmp l). rewrite <- IH at 2.
    generalize (sort cmp l). clear. intros l.
    induction l as [|y l IH]; cbn [insert_sorted]; [reflexivity|].
    destruct (Num.gtb _ _); [|reflexivity].
    rewrite IH. apply Permutation_swap.
  - reflexivity.
Defined.

(** No variable set: alerts go to the console only. *)
Definition env0 : Env := {|
  ALERT_EMAIL_TO := None; ALERT_EMAIL_FROM := None;
  SMTP_HOST := None; SMTP_USER := None;
  ABNORMAL_ALERT_MIN_GAP_MINUTES := None;
  MAINTENANCE_LOOKAHEAD_DAYS := None;
|}.

Definition empty : world :=
  {| db := {| machines := []; vitals := [] |};
     file := {| machines := []; vitals := [] |};
     outbox := [] |}.

Definition num (z : Z) : jsval := JNum (Num.of_Z z).

(** 2024-03-01T12:00:00.000Z, ten minutes later and an hour later *)
Definition noon : Z := 1709294400000.
Definition ten_past : Z := noon + 10 * 60000.

Definition machine_record (id name due : string) : obj :=
  object
    [("id", JStr id); ("name", JStr name); ("code", JStr "");
     ("location", JStr ""); ("nextMaintenanceDate", JStr due);
     ("responsibleEmail", JStr ""); ("thresholds", JObj default_thresholds);
     ("lastMaintenanceReminderSent", JNull); ("lastAbnormalAlertSent", JNull);
     ("createdAt", JStr "2024-02-01T08:00:00.000Z")].

Definition vital_record (vid mid : string) (temperature : Z) (at_ : string) : obj :=
  object
    [("id", JStr vid); ("machineId", JStr mid);
     ("temperature", num temperature); ("vibration", JNull);
     ("pressure", JNull); ("timestamp", JStr at_)].

(** Maintenance of the pump is due in four days, of the fan in a month. *)
Definition pump : obj := machine_record "m1" "Pump" "2024-03-05T12:00:00.000Z".
Definition fan : obj := machine_record "m2" "Fan" "2024-04-01T12:00:00.000Z".

Definition v1 : obj := vital_record "v1" "m1" 71 "2024-03-01T10:00:00.000Z".
Definition v2 : obj := vital_record "v2" "m2" 40 "2024-03-01T10:30:00.000Z".
Definition v3 : obj := vital_record "v3" "m1" 75 "2024-03-01T09:00:00.000Z".

Definition plant : world :=
  let d := {| machines := [pump; fan]; vitals := [v1; v2; v3] |} in
  {| db := d; file := d; outbox := [] |}.

(** A kiln with thresholds of its own, due for maintenance in two days, and
    the works it stands in. *)
Definition kiln : obj :=
  <["thresholds" := JObj (object [("temperature", num 300);
                                  ("vibration", num 5);
                                  ("pressure", num 20)])]>
    (machine_record "k1" "Kiln" "2024-03-03T12:00:00.000Z").

Definition works : world :=
  let d := {| machines := [kiln; pump]; vitals := [] |} in
  {| db := d; file := d; outbox := [] |}.

(** A gap of five minutes between alerts and a window of three days. *)
Definition env_strict : Env := {|
  ALERT_EMAIL_TO := None; ALERT_EMAIL_FROM := None;
  SMTP_HOST := None; SMTP_USER := None;
  ABNORMAL_ALERT_MIN_GAP_MINUTES := Some "5";
  MAINTENANCE_LOOKAHEAD_DAYS := Some "3";
|}.

(** A recipient and a mail host: alerts go to the mail transport. *)
Definition env_mail : Env := {|
  ALERT_EMAIL_TO := Some "ops@example.com"; ALERT_EMAIL_FROM := None;
  SMTP_HOST := Some "smtp.example.com"; SMTP_USER := Some "monitor";
  ABNORMAL_ALERT_MIN_GAP_MINUTES := None;
  MAINTENANCE_LOOKAHEAD_DAYS := None;
|}.

(** A store in which two machines have the id of the pump. *)
Definition pump_b : obj := <["name" := JStr "Pump B"]> pump.

Definition twins : world :=
  let d := {| machines := [fan; pump; pump_b]; vitals := [v1] |} in
  {| db := d; file := d; outbox := [] |}.


(** Request bodies: a hot reading, a cool one, a shaky one, a new machine. *)
Definition hot : jsval := JObj (object [("temperature", num 90)]).
Definition cool : jsval := JObj (object [("temperature", num 70)]).
Definition shaky : jsval := JObj (object [("vibration", num 7)]).
Definition press : jsval :=
  JObj (object [("name", JStr "Press");
                ("nextMaintenanceDate", JStr "2024-05-01T00:00:00.000Z")]).

(** A morning at the plant: a hot reading, an update, a simulation, a sweep,
    a listing. *)
Definition morning : list event :=
  [PostVitals "m1" hot "v4" noon noon;
   PutMachine "m2" (JObj (object [("location", JStr "Hall B")]));
   PostSimulate "m2" "v5" (1 # 2) (1 # 4) (3 # 4) ten_past;
   Timer ten_past;
   GetVitals "m1" None].

End Reference.

(** ** Running a handler *)

Definition result {A} (m : M A) (w : world) : A := fst (m w).
Definition after {A} (m : M A) (w : world) : world := snd (m w).

(** The notices a handler adds to the outbox. *)
Definition sent {A} (m : M A) (w : world) : list notice :=
  drop (length (outbox w)) (outbox (after m w)).

(** A machine with this id is in the store. *)
Definition known (id : string) (ms : list obj) : Prop :=
  ∃ m, m ∈ ms ∧ m !! "id" = Some (JStr id).

(** ** The words of the specification *)

Inductive dimension := Temperature | Vibration | Pressure.

Definition dimensions : list dimension := [Temperature; Vibration; Pressure].

Definition key (d : dimension) : string :=
  match d with
  | Temperature => "temperature"
  | Vibration => "vibration"
  | Pressure => "pressure"
  end.

Definition label (d : dimension) : string :=
  match d with
  | Temperature => "Temperature"
  | Vibration => "Vibration"
  | Pressure => "Pressure"
  end.

Definition unit_of (d : dimension) : string :=
  match d with
  | Temperature => "°C"
  | Vibration => "mm/s"
  | Pressure => "bar"
  end.

(** The three readings of a request body, each a number or null. *)
Definition readings (req : jsval) (d : dimension) : option number :=
  number_or_null (get req (key d)).

(** A dimension is breached when its reading is a number strictly greater
    than the threshold. *)
Definition breached `{Runtime} (x : dimension → option number) (T : jsval)
    (d : dimension) : Prop :=
  ∃ n, x d = Some n ∧ Num.lt (ToNumber (get T (key d))) n.

Definition mentions (part whole : string) : Prop :=
  ∃ before after, whole = before +:+ part +:+ after.

(** The thresholds in force for a machine: its own, or 80, 10 and 200 when
    it has none. *)
Definition in_force (machine : obj) : jsval :=
  match machine !! "thresholds" with
  | Some t =>
      if truthy (Some t) then t
      else JObj (object [("temperature", JNum (Num.of_Z 80));
                         ("vibration", JNum (Num.of_Z 10));
                         ("pressure", JNum (Num.of_Z 200))])
  | None => JObj (object [("temperature", JNum (Num.of_Z 80));
                          ("vibration", JNum (Num.of_Z 10));
                          ("pressure", JNum (Num.of_Z 200))])
  end.

(** A configured whole number: the variable of the environment read as a
    decimal integer, or the default when it is unset or empty. *)
Definition setting (variable : option string) (default : Z) : number :=
  match variable with
  | Some s => if bool_decide (s = "") then Num.of_Z default else parseInt s
  | None => Num.of_Z default
  end.

(** A nullable field is unset when it is null or missing. *)
Definition unset (v : option jsval) : Prop := v = None ∨ v = Some JNull.

(** A nullable timestamp is unset or holds a truthy value, its date. *)
Definition nullable_stamp (v : option jsval) : Prop := unset v ∨ truthy v = true.

(** At [now], the time since the date [last] is more than [gap] minutes. *)
Definition minutes_exceed `{Runtime} (now : Z) (last : option jsval)
    (gap : number) : Prop :=
  ∃ t g, Date_new last = Some t ∧ gap = Num.of_Z g ∧ 60000 * g < now - t.

(** At [now], at least one full day has passed since the date [last]. *)
Definition full_day_elapsed `{Runtime} (now : Z) (last : option jsval) : Prop :=
  ∃ t, Date_new last = Some t ∧ 86400000 ≤ now - t.

(** At [now], the date [due] is at most [window] days ahead (or is past). *)
Definition due_within `{Runtime} (now : Z) (due : option jsval)
    (window : number) : Prop :=
  ∃ t g, Date_new due = Some t ∧ window = Num.of_Z g ∧ t - now ≤ 86400000 * g.


(** The handler's decision to alert: the reading is abnormal and the test on
    the last alert passes. *)
Definition alert_fires `{Runtime} (env : Env) (now : Z) (req : jsval)
    (machine : obj) : bool :=
  fst (check_thresholds (readings req Temperature) (readings req Vibration)
         (readings req Pressure) (thresholds_of machine))
  && alert_due now (date_or_null (machine !! "lastAbnormalAlertSent"))
       (minGapMinutes env).

(** The sweep's decision to remind about a machine. *)
Definition reminder_fires `{Runtime} (env : Env) (now : Z) (machine : obj) : bool :=
  truthy (machine !! "nextMaintenanceDate")
  && Num.leb (diffDays now machine) (lookaheadDays env)
  && reminder_due now (date_or_null (machine !! "lastMaintenanceReminderSent")).

(** The date of a vital, and the order of two vitals by date. *)
Definition time_of `{Runtime} (v : obj) : option Z := Date_new (v !! "timestamp").

Definition not_after `{Runtime} (a b : obj) : Prop :=
  ∃ ta tb, time_of a = Some ta ∧ time_of b = Some tb ∧ ta ≤ tb.

(** The notice a call to [sendAlertEmail] leaves, by the configuration. *)
Definition delivery (env : Env) (subject text : string) : notice :=
  let to := str_or (ALERT_EMAIL_TO env) "" in
  if bool_decide (to = "") then NoRecipient subject text
  else if bool_decide (str_or (SMTP_HOST env) "" = "") then Simulated subject text to
  else
    SendMail
      (if bool_decide (str_or (ALERT_EMAIL_FROM env) "" = "")
       then SMTP_USER env else ALERT_EMAIL_FROM env)
      to subject text.

Definition text_of (n : notice) : string :=
  match n with
  | NoRecipient _ t | Simulated _ t _ | SendMail _ _ _ t => t
  end.

(** A machine after the sweep at [now], and the reminders the sweep sends
    about it. *)
Definition reminded `{Runtime} (env : Env) (now : Z) (m : obj) : obj :=
  if reminder_fires env now m
  then <["lastMaintenanceReminderSent" := JStr (toISOString now)]> m
  else m.

Definition reminders `{Runtime} (env : Env) (now : Z) (m : obj) : list notice :=
  if reminder_fires env now m
  then [delivery env (reminder_subject m) (reminder_text m (diffDays now m))]
  else [].

(** Two machines with the same [id] property. *)
Definition same_id (m m' : obj) : Prop := m !! "id" = m' !! "id".

(** Every vital of the store carries the id of a machine of the store. *)
Definition referenced (d : Db) : Prop :=
  ∀ v, v ∈ vitals d →
    ∃ id, v !! "machineId" = Some (JStr id) ∧ known id (machines d).

(** The file holds what was written of the store as it is now. *)
Definition saved (w : world) : Prop := file w = written (db w).

(** A notice handed to the mail transport, and the configuration that
    permits it. *)
Definition mailed (n : notice) : Prop :=
  match n with
  | SendMail _ _ _ _ => True
  | _ => False
  end.

Definition mail_configured (env : Env) : Prop :=
  str_or (ALERT_EMAIL_TO env) "" ≠ "" ∧ str_or (SMTP_HOST env) "" ≠ "".

(** The [id] properties of the machines, in order. *)
Definition ids (ms : list obj) : list (option jsval) := (λ m, m !! "id") <$> ms.

(** The events that create or delete a machine. *)
Definition creates (e : event) : Prop :=
  match e with PostMachines _ _ _ => True | _ => False end.

Definition deletes (e : event) : Prop :=
  match e with DeleteMachine _ => True | _ => False end.

(** The events on behalf of which [sendAlertEmail] is called. *)
Definition notifies (e : event) : Prop :=
  match e with PostVitals _ _ _ _ _ | Timer _ => True | _ => False end.




(** * Properties *)

Lemma is_string_spec (v : option jsval) (s : string) :
  Is_true (is_string v s) ↔ v = Some (JStr s).
Proof.
  destruct v as [[]|]; simpl; try (split; [intros [] | discriminate]).
  rewrite bool_decide_spec. split; [by intros -> | congruence].
Qed.

Lemma has_id_spec id (m : obj) : has_id id m ↔ m !! "id" = Some (JStr id).
Proof. apply is_string_spec. Qed.

Lemma of_machine_spec id (v : obj) :
  of_machine id v ↔ v !! "machineId" = Some (JStr id).
Proof. apply is_string_spec. Qed.

Lemma find_machine_None id ms : find_machine id ms = None ↔ ¬ known id ms.
Proof.
  unfold find_machine, known. rewrite list_find_None, Forall_forall. split.
  - intros Hall (m & Hm & Hid). apply (Hall m Hm). by apply has_id_spec.
  - intros Hno m Hm Hid. apply Hno. exists m. split; [done|]. by apply has_id_spec.
Qed.

Lemma find_machine_Some id ms idx m :
  find_machine id ms = Some (idx, m) ↔
    ms !! idx = Some m ∧ m !! "id" = Some (JStr id) ∧
    ∀ j m', ms !! j = Some m' → (j < idx)%nat → m' !! "id" ≠ Some (JStr id).
Proof.
  unfold find_machine. rewrite list_find_Some, has_id_spec.
  split; intros (? & ? & Hlt); (split; [done|]); (split; [done|]);
    intros j m' Hj Hlt'; specialize (Hlt j m' Hj Hlt'); by rewrite has_id_spec in *.
Qed.

Lemma known_find id ms : known id ms → ∃ idx m, find_machine id ms = Some (idx, m).
Proof.
  intros Hk. destruct (find_machine id ms) as [[idx m]|] eqn:E; [eauto|].
  by apply find_machine_None in E.
Qed.

Example parseInt_examples :
  parseInt "50" = Num.of_Z 50
  ∧ parseInt " 12px" = Num.of_Z 12
  ∧ parseInt "-3" = Num.of_Z (-3)
  ∧ parseInt "0" = Num.of_Z 0
  ∧ parseInt "abc" = NaN
  ∧ parseInt "" = NaN.
Proof. repeat split. Qed.

(** ** Creating a machine *)

Section Create.
Context `{Runtime}.

Lemma or_else_truthy v d : truthy (Some v) = true → or_else (Some v) d = v.
Proof. unfold or_else. by intros ->. Qed.

Lemma post_machines_rejected req id now w :
  truthy (get req "name") && truthy (get req "nextMaintenanceDate") = false →
  post_machines req id now w = (validation_error, w).
Proof.
  intros Hf. unfold post_machines.
  destruct (truthy (get req "name")), (truthy (get req "nextMaintenanceDate"));
    done.
Qed.

Lemma post_machines_created req id now w :
  truthy (get req "name") && truthy (get req "nextMaintenanceDate") = true →
  ∃ machine,
    post_machines req id now w =
      (json 201 (JObj machine),
       {| db := set_machines (machines (db w) ++ [machine]) (db w);
          file := written (set_machines (machines (db w) ++ [machine]) (db w));
          outbox := outbox w |})
    ∧ machine !! "id" = Some (JStr id)
    ∧ machine !! "name" = get req "name"
    ∧ machine !! "nextMaintenanceDate" = get req "nextMaintenanceDate"
    ∧ machine !! "thresholds" =
        Some (or_else (get req "thresholds") (JObj default_thresholds))
    ∧ machine !! "lastMaintenanceReminderSent" = Some JNull
    ∧ machine !! "lastAbnormalAlertSent" = Some JNull.
Proof.
  intros Ht. apply andb_true_iff in Ht as [Hn Hd].
  unfold post_machines. rewrite Hn, Hd. simpl.
  eexists. split; [reflexivity|].
  destruct (get req "name") as [n|]; [|done].
  destruct (get req "nextMaintenanceDate") as [d|]; [|done].
  rewrite !or_else_truthy by done.
  repeat split; reflexivity.
Qed.

(** C5. A creation request without [name] or without [nextMaintenanceDate]
    is answered 400 with a message, and neither the store nor the file
    changes. *)
Theorem create_missing_field_rejected req id now w :
  get req "name" = None ∨ get req "nextMaintenanceDate" = None →
  status (result (post_machines req id now) w) = 400
  ∧ (∃ msg, body (result (post_machines req id now) w)
            = Some (JObj (object [("message", JStr msg)])))
  ∧ after (post_machines req id now) w = w.
Proof.
  intros Hmiss. unfold result, after.
  rewrite post_machines_rejected; [simpl; eauto|].
  destruct Hmiss as [-> | ->]; [done|]. apply andb_false_r.
Qed.

(** C6. A successful creation returns the created record, which is appended
    to the store and saved; the record carries the generated id and null
    for both last-sent timestamps, and the thresholds 80, 10 and 200 when
    the request has none. *)
Theorem create_defaults req id now w :
  status (result (post_machines req id now) w) = 201 →
  ∃ machine,
    body (result (post_machines req id now) w) = Some (JObj machine)
    ∧ machines (db (after (post_machines req id now) w))
        = machines (db w) ++ [machine]
    ∧ file (after (post_machines req id now) w)
        = written (db (after (post_machines req id now) w))
    ∧ machine !! "id" = Some (JStr id)
    ∧ machine !! "lastMaintenanceReminderSent" = Some JNull
    ∧ machine !! "lastAbnormalAlertSent" = Some JNull
    ∧ (get req "thresholds" = None →
       machine !! "thresholds" = Some (JObj (object
         [("temperature", JNum (Num.of_Z 80));
          ("vibration", JNum (Num.of_Z 10));
          ("pressure", JNum (Num.of_Z 200))]))).
Proof.
  unfold result, after.
  destruct (truthy (get req "name") && truthy (get req "nextMaintenanceDate"))
    eqn:Ht.
  - intros _.
    destruct (post_machines_created req id now w Ht)
      as (machine & -> & Hid & _ & _ & Hth & Hr & Ha).
    exists machine. simpl. repeat split; try done.
    intros Hnone. by rewrite Hth, Hnone.
  - by rewrite post_machines_rejected.
Qed.

End Create.

(** ** Updating and deleting a machine *)

Section UpdateDelete.
Context `{Runtime}.

Lemma put_machine_unknown id req w :
  ¬ known id (machines (db w)) → put_machine id req w = (not_found, w).
Proof.
  intros Hk%find_machine_None. unfold put_machine.
  cbv [mbind M_bind gets]. by rewrite Hk.
Qed.

Lemma put_machine_found id req w idx old :
  find_machine id (machines (db w)) = Some (idx, old) →
  let updated := <["id" := JStr id]> (spread req ∪ old) in
  let d := set_machines (<[idx := updated]> (machines (db w))) (db w) in
  put_machine id req w =
    (json 200 (JObj updated), {| db := d; file := written d; outbox := outbox w |}).
Proof.
  intros Hf. unfold put_machine. cbv [mbind M_bind gets]. by rewrite Hf.
Qed.

(** The spread [{...old, ...body, id}], property by property. *)
Lemma merged_lookup (id : string) (old patch : obj) (k : string) :
  (<["id" := JStr id]> (patch ∪ old)) !! k =
    if decide (k = "id") then Some (JStr id)
    else match patch !! k with
         | Some v => Some v
         | None => old !! k
         end.
Proof.
  case_decide as Hk.
  - subst. apply lookup_insert_eq.
  - rewrite lookup_insert_ne by done.
    destruct (patch !! k) as [v|] eqn:E.
    + by apply lookup_union_Some_l.
    + by rewrite lookup_union_r.
Qed.

(** C7. Updating an unknown id is answered 404 and changes nothing;
    updating a known one replaces the machine, in place, by its fields
    overridden by those of the request, keeps its id whatever the request
    says, saves the store and returns the new record. *)
Theorem update_merges_fields id req w :
  (¬ known id (machines (db w)) →
     status (result (put_machine id req) w) = 404
     ∧ after (put_machine id req) w = w)
  ∧ (known id (machines (db w)) →
     ∃ idx old updated,
       machines (db w) !! idx = Some old
       ∧ old !! "id" = Some (JStr id)
       ∧ result (put_machine id req) w = json 200 (JObj updated)
       ∧ machines (db (after (put_machine id req) w))
           = <[idx := updated]> (machines (db w))
       ∧ vitals (db (after (put_machine id req) w)) = vitals (db w)
       ∧ file (after (put_machine id req) w)
           = written (db (after (put_machine id req) w))
       ∧ updated !! "id" = old !! "id"
       ∧ ∀ k, k ≠ "id" →
           updated !! k = match spread req !! k with
                          | Some v => Some v
                          | None => old !! k
                          end).
Proof.
  unfold result, after. split.
  - intros Hk. by rewrite put_machine_unknown.
  - intros (idx & old & Hf)%known_find.
    pose proof Hf as (Hidx & Hid & _)%find_machine_Some.
    rewrite (put_machine_found _ _ _ _ _ Hf). simpl.
    eexists idx, old, _. repeat split; try done.
    + rewrite merged_lookup. by rewrite decide_True.
    + intros k Hk. rewrite merged_lookup. by rewrite decide_False.
Qed.

Lemma delete_machine_unknown id w :
  ¬ known id (machines (db w)) → delete_machine id w = (not_found, w).
Proof.
  intros Hk%find_machine_None. unfold delete_machine.
  cbv [mbind M_bind gets]. by rewrite Hk.
Qed.

Lemma delete_machine_found id w idx m :
  find_machine id (machines (db w)) = Some (idx, m) →
  let d := {| machines := delete idx (machines (db w));
              vitals := filter (λ v, ¬ of_machine id v) (vitals (db w)) |} in
  delete_machine id w =
    ({| status := 204; body := None |},
     {| db := d; file := written d; outbox := outbox w |}).
Proof.
  intros Hf. unfold delete_machine. cbv [mbind M_bind gets]. by rewrite Hf.
Qed.

(** C4. Deleting an unknown id is answered 404 and changes nothing;
    deleting a known one removes that machine from the list and leaves the
    others as they were, and keeps, in order, exactly the vitals whose
    [machineId] is not the id. *)
Theorem delete_cascades id w :
  (¬ known id (machines (db w)) →
     status (result (delete_machine id) w) = 404
     ∧ after (delete_machine id) w = w)
  ∧ (known id (machines (db w)) →
     ∃ idx m,
       machines (db w) !! idx = Some m
       ∧ m !! "id" = Some (JStr id)
       ∧ status (result (delete_machine id) w) = 204
       ∧ machines (db (after (delete_machine id) w))
           = take idx (machines (db w)) ++ drop (S idx) (machines (db w))
       ∧ vitals (db (after (delete_machine id) w))
           = filter (λ v, ¬ of_machine id v) (vitals (db w))
       ∧ (∀ v, v ∈ vitals (db (after (delete_machine id) w)) ↔
               v ∈ vitals (db w) ∧ v !! "machineId" ≠ Some (JStr id))
       ∧ file (after (delete_machine id) w)
           = written (db (after (delete_machine id) w))).
Proof.
  unfold result, after. split.
  - intros Hk. by rewrite delete_machine_unknown.
  - intros (idx & m & Hf)%known_find.
    pose proof Hf as (Hidx & Hid & _)%find_machine_Some.
    rewrite (delete_machine_found _ _ _ _ Hf). simpl.
    exists idx, m. split_and!; try done.
    + apply delete_take_drop.
    + intros v. rewrite list_elem_of_filter, of_machine_spec. tauto.
Qed.

End UpdateDelete.

(** ** Health *)

Section Health.

Lemma get_health_eq w :
  get_health w =
    (json 200 (JObj (object
       [("status", JStr "ok");
        ("machines", JNum (Num.of_Z (Z.of_nat (length (machines (db w))))))])),
     w).
Proof. reflexivity. Qed.

(** C9, as the code has it. The health check always answers 200 and changes
    nothing; its body has [status], which is ["ok"], and [machines], the
    number of machines in the store. *)
Theorem health_reports_machines w :
  status (result get_health w) = 200
  ∧ after get_health w = w
  ∧ ∃ o, body (result get_health w) = Some (JObj o)
      ∧ o !! "status" = Some (JStr "ok")
      ∧ o !! "machines"
          = Some (JNum (Num.of_Z (Z.of_nat (length (machines (db w)))))).
Proof.
  unfold result, after. rewrite get_health_eq. simpl.
  repeat split. eexists. repeat split; reflexivity.
Qed.

(** C9, as stated, fails: the body has no [machineCount]. *)
Lemma health_has_no_machineCount :
  ¬ ∃ o n, body (result get_health Reference.empty) = Some (JObj o)
           ∧ o !! "machineCount" = Some n.
Proof. intros (o & n & [= <-] & Hn). vm_compute in Hn. discriminate. Qed.

End Health.

(** ** Numbers *)

Section Numbers.

Lemma ltb_lt a b : Num.ltb a b = true ↔ Num.lt a b.
Proof.
  destruct a, b; simpl; try (split; [discriminate|tauto]); try tauto.
  rewrite Qlt_alt. destruct (_ ?= _)%Q; split; congruence.
Qed.

Lemma gtb_lt a b : Num.gtb a b = true ↔ Num.lt b a.
Proof. apply ltb_lt. Qed.

Lemma leb_le a b : Num.leb a b = true ↔ Num.le a b.
Proof.
  destruct a, b; simpl; try (split; [discriminate|tauto]); try tauto.
  rewrite negb_true_iff, Qle_alt. destruct (q ?= q0)%Q eqn:E.
  - apply Qeq_alt in E. assert ((q0 ?= q)%Q = Eq) as -> by (by apply Qeq_alt).
    split; congruence.
  - apply Qlt_alt in E. assert ((q0 ?= q)%Q = Gt) as -> by (by apply Qgt_alt).
    split; congruence.
  - apply Qgt_alt in E. assert ((q0 ?= q)%Q = Lt) as -> by (by apply Qlt_alt).
    split; congruence.
Qed.

Lemma geb_le a b : Num.geb a b = true ↔ Num.le b a.
Proof. apply leb_le. Qed.

(** Dividing an integer by a positive integer constant. *)
Lemma div_of_Z (a k : Z) :
  0 < k → Num.div (Num.of_Z a) (Num.of_Z k) = Fin (inject_Z a / inject_Z k).
Proof.
  intros Hk. unfold Num.div, Num.of_Z, Num.is_zero.
  replace (Qeq_bool (inject_Z k) 0) with false; [done|].
  symmetry. apply not_true_iff_false. rewrite Qeq_bool_iff.
  unfold Qeq. simpl. lia.
Qed.

Lemma lt_div (a k g : Z) :
  0 < k → Num.lt (Num.of_Z g) (Fin (inject_Z a / inject_Z k)) ↔ k * g < a.
Proof.
  intros Hk. simpl. unfold Qlt, Qdiv, Qinv, Qmult. simpl.
  destruct k as [|k|k]; try lia. simpl. nia.
Qed.

Lemma le_div (a k g : Z) :
  0 < k → Num.le (Fin (inject_Z a / inject_Z k)) (Num.of_Z g) ↔ a ≤ k * g.
Proof.
  intros Hk. simpl. unfold Qle, Qdiv, Qinv, Qmult. simpl.
  destruct k as [|k|k]; try lia. simpl. nia.
Qed.

Lemma ge_div (a k g : Z) :
  0 < k → Num.le (Num.of_Z g) (Fin (inject_Z a / inject_Z k)) ↔ k * g ≤ a.
Proof.
  intros Hk. simpl. unfold Qle, Qdiv, Qinv, Qmult. simpl.
  destruct k as [|k|k]; try lia. simpl. nia.
Qed.

End Numbers.

(** ** Threshold evaluation *)

Section Thresholds.
Context `{Runtime} (env : Env).

Lemma sendAlertEmail_delivery subject text :
  sendAlertEmail env subject text = emit (delivery env subject text).
Proof.
  unfold sendAlertEmail, delivery.
  destruct (ALERT_EMAIL_TO env) as [to|]; simpl; [|done].
  destruct (bool_decide (to = "")) eqn:E; rewrite ?E; [done|].
  destruct (bool_decide (str_or (SMTP_HOST env) "" = "")); [done|].
  destruct (ALERT_EMAIL_FROM env) as [f|]; simpl; [|done].
  by destruct (bool_decide (f = "")) eqn:E'; rewrite ?E'.
Qed.

Lemma text_of_delivery subject text :
  text_of (delivery env subject text) = text.
Proof. unfold delivery. by repeat case_bool_decide. Qed.

Lemma exceeds_breached (x : dimension → option number) (T : jsval) d :
  exceeds (x d) (get T (key d)) = true ↔ breached x T d.
Proof.
  unfold exceeds, breached. destruct (x d) as [n|].
  - rewrite gtb_lt. split; [eauto|]. by intros (? & [= <-] & ?).
  - split; [discriminate|]. by intros (? & ? & _).
Qed.

(** The three tests of the handler against the specification's words: the
    flag is a disjunction, the reasons a filtered map. *)
Lemma check_thresholds_spec (x : dimension → option number) (T : jsval) :
  check_thresholds (x Temperature) (x Vibration) (x Pressure) T =
    (existsb (λ d, exceeds (x d) (get T (key d))) dimensions,
     (λ d, reason (label d) (unit_of d) (x d) (get T (key d))) <$>
       List.filter (λ d, exceeds (x d) (get T (key d))) dimensions).
Proof.
  unfold check_thresholds, dimensions. simpl.
  by destruct (exceeds (x Temperature) _), (exceeds (x Vibration) _),
    (exceeds (x Pressure) _).
Qed.

Lemma append_assoc (s1 s2 s3 : string) :
  (s1 +:+ s2) +:+ s3 = s1 +:+ (s2 +:+ s3).
Proof.
  induction s1 as [|c s1 IH]; [done|].
  change (String c ((s1 +:+ s2) +:+ s3) = String c (s1 +:+ (s2 +:+ s3))).
  by rewrite IH.
Qed.

Lemma reason_mentions lbl unit x t :
  mentions (ToString (Some (reading x))) (reason lbl unit x t)
  ∧ mentions (ToString t) (reason lbl unit x t).
Proof.
  unfold reason, mentions. split.
  - exists (lbl +:+ " "), (unit +:+ " > " +:+ ToString t +:+ unit).
    by rewrite !append_assoc.
  - exists (lbl +:+ " " +:+ ToString (Some (reading x)) +:+ unit +:+ " > "), unit.
    by rewrite !append_assoc.
Qed.

(** What the vitals handler does for a known machine. *)
Lemma post_vitals_found id req vid t0 now w idx machine :
  find_machine id (machines (db w)) = Some (idx, machine) →
  let vital := make_vital id req vid t0 in
  let T := thresholds_of machine in
  let ar := check_thresholds (readings req Temperature) (readings req Vibration)
              (readings req Pressure) T in
  let fire := fst ar && alert_due now
                (date_or_null (machine !! "lastAbnormalAlertSent"))
                (minGapMinutes env) in
  let d1 := set_vitals (vitals (db w) ++ [vital]) (db w) in
  let d2 := if fire
            then assign idx "lastAbnormalAlertSent" (JStr (toISOString now)) d1
            else d1 in
  post_vitals env id req vid t0 now w =
    (json 201 (JObj (object [("vital", JObj vital); ("abnormal", JBool (fst ar))])),
     {| db := d2; file := written d2;
        outbox := outbox w ++
          if fire
          then [delivery env (alert_subject machine)
                  (alert_text machine vital (snd ar))]
          else [] |}).
Proof.
  intros Hf. unfold post_vitals, post_vitals_begin. cbv [mbind M_bind gets].
  rewrite Hf. unfold readings. simpl.
  destruct (check_thresholds _ _ _ _) as [abnormal reasons]. simpl.
  destruct abnormal; simpl; [|by rewrite app_nil_r].
  destruct (alert_due _ _ _); simpl; [|by rewrite app_nil_r].
  rewrite sendAlertEmail_delivery. by destruct awaits_transport.
Qed.

Lemma sent_after {A} (m : M A) w ns :
  outbox (after m w) = outbox w ++ ns → sent m w = ns.
Proof. unfold sent. intros ->. apply drop_app_length. Qed.

Lemma filter_sublist {A} (f : A → bool) l : List.filter f l `sublist_of` l.
Proof.
  induction l as [|x l IH]; simpl; [done|].
  destruct (f x); by constructor.
Qed.

Lemma thresholds_in_force machine : thresholds_of machine = in_force machine.
Proof.
  unfold thresholds_of, in_force, or_else.
  by destruct (machine !! "thresholds") as [t|].
Qed.

(** C1. For a known machine the handler appends the vital and answers 201
    with it and the flag [abnormal].  With [T] the thresholds of the machine
    (80, 10 and 200 when it has none), the flag is true exactly when some
    dimension is breached, the reasons are those of the breached dimensions
    in the order temperature, vibration, pressure, each reason mentions the
    reading and the threshold, and the reasons are what an alert carries. *)
Theorem abnormal_iff_breached id req vid t0 now w :
  known id (machines (db w)) →
  ∃ idx machine vital abnormal reasons,
    let x := readings req in
    let T := in_force machine in
    let reason_of d := reason (label d) (unit_of d) (x d) (get T (key d)) in
    find_machine id (machines (db w)) = Some (idx, machine)
    ∧ (∀ t, machine !! "thresholds" = Some (JObj t) → T = JObj t)
    ∧ (machine !! "thresholds" = None ∨ machine !! "thresholds" = Some JNull →
       ∀ d, get T (key d) =
              Some (JNum (Num.of_Z match d with
                                   | Temperature => 80
                                   | Vibration => 10
                                   | Pressure => 200
                                   end)))
    ∧ result (post_vitals env id req vid t0 now) w
        = json 201 (JObj (object
            [("vital", JObj vital); ("abnormal", JBool abnormal)]))
    ∧ vitals (db (after (post_vitals env id req vid t0 now) w))
        = vitals (db w) ++ [vital]
    ∧ (∀ d, vital !! key d = Some (reading (x d)))
    ∧ (abnormal = true ↔ ∃ d, breached x T d)
    ∧ (∃ among, reasons = reason_of <$> among
                ∧ among `sublist_of` dimensions
                ∧ ∀ d, d ∈ among ↔ breached x T d)
    ∧ (∀ d, mentions (ToString (Some (reading (x d)))) (reason_of d)
            ∧ mentions (ToString (get T (key d))) (reason_of d))
    ∧ (∀ n, n ∈ sent (post_vitals env id req vid t0 now) w →
            text_of n = alert_text machine vital reasons).
Proof.
  intros (idx & machine & Hf)%known_find.
  pose proof (post_vitals_found id req vid t0 now w idx machine Hf) as Hp.
  cbv zeta in Hp. rewrite thresholds_in_force in Hp.
  set (T := in_force machine) in *.
  pose proof (check_thresholds_spec (readings req) T) as Hc.
  destruct (check_thresholds _ _ _ T) as [abnormal reasons] eqn:E.
  pose proof (f_equal fst Hc) as Ha. pose proof (f_equal snd Hc) as Hr.
  cbn [fst snd] in Ha, Hr, Hp. clear Hc.
  exists idx, machine, (make_vital id req vid t0), abnormal, reasons.
  cbv zeta. fold T. split_and!.
  - done.
  - intros t Ht. unfold T, in_force. by rewrite Ht.
  - intros Hnone d. unfold T, in_force.
    destruct Hnone as [-> | ->]; by destruct d.
  - unfold result. by rewrite Hp.
  - unfold after. rewrite Hp. cbn [snd db]. by destruct (abnormal && _).
  - by intros [].
  - rewrite Ha, existsb_exists. split.
    + intros (d & _ & Hd). exists d. by apply exceeds_breached.
    + intros (d & Hd). exists d. split; [destruct d; simpl; tauto|].
      by apply exceeds_breached.
  - eexists. split; [exact Hr|]. split.
    + apply filter_sublist.
    + intros d. rewrite <- exceeds_breached, list_elem_of_In, filter_In.
      split; [by intros [_ ?]|].
      intros Hd. split; [destruct d; simpl; tauto | done].
  - intros d. apply reason_mentions.
  - intros n Hn. erewrite sent_after in Hn; [|unfold after; by rewrite Hp].
    destruct (abnormal && _); simpl in Hn; [|by apply elem_of_nil in Hn].
    apply list_elem_of_singleton in Hn. subst. apply text_of_delivery.
Qed.

End Thresholds.

(** ** Alert deduplication *)

Section Deduplication.
Context `{Runtime} (env : Env).

Lemma parseInt_cases s : parseInt s = NaN ∨ ∃ z, parseInt s = Num.of_Z z.
Proof.
  unfold parseInt. destruct (match trim_start s with "" => _ | _ => _ end) as [sg r].
  destruct (leading_digits r None); eauto.
Qed.

Lemma of_Z_inj a b : Num.of_Z a = Num.of_Z b → a = b.
Proof. unfold Num.of_Z, inject_Z. congruence. Qed.

Lemma unset_falsy v : unset v → truthy v = false.
Proof. by intros [-> | ->]. Qed.


(** The test of the handler on the last alert: the stamp is falsy, or it is
    a date more than the gap of minutes before [now]. *)
Lemma alert_due_iff now last :
  alert_due now (date_or_null last) (minGapMinutes env) = true ↔
    truthy last = false ∨ minutes_exceed now last (minGapMinutes env).
Proof.
  unfold alert_due, date_or_null, minutes_exceed.
  destruct (truthy last) eqn:Ht.
  - rewrite gtb_lt. split.
    + intros Hlt. right.
      destruct (Date_new last) as [t|]; unfold date_sub in Hlt;
        [|by destruct (minGapMinutes env)].
      rewrite div_of_Z in Hlt by lia.
      destruct (parseInt_cases (str_or (ABNORMAL_ALERT_MIN_GAP_MINUTES env) "30"))
        as [Hn | [g Hg]]; fold (minGapMinutes env) in *.
      * by rewrite Hn in Hlt.
      * rewrite Hg in *.
        pose proof (proj1 (lt_div (now - t) (1000 * 60) g ltac:(lia)) Hlt).
        exists t, g. split_and!; [done..|lia].
    + intros [? | (t & g & -> & Hg & Hlt)]; [done|].
      rewrite Hg. unfold date_sub. rewrite div_of_Z by lia. apply lt_div; lia.
  - split; [|done]. intros _. by left.
Qed.

(** The gap is the variable of the environment, read as an integer. *)
Lemma minGapMinutes_setting :
  minGapMinutes env = setting (ABNORMAL_ALERT_MIN_GAP_MINUTES env) 30.
Proof.
  unfold minGapMinutes, setting, str_or.
  destruct (ABNORMAL_ALERT_MIN_GAP_MINUTES env) as [s|]; [|done].
  by case_bool_decide.
Qed.

(** Stamping a field other than [id] moves no machine. *)
Lemma find_machine_assign id ms idx m k v :
  k ≠ "id" →
  find_machine id ms = Some (idx, m) →
  find_machine id (alter (insert k v) idx ms) = Some (idx, <[k := v]> m).
Proof.
  intros Hk (Hidx & Hid & Hfirst)%find_machine_Some.
  apply find_machine_Some. split_and!.
  - by rewrite list_lookup_alter_eq, Hidx.
  - by rewrite lookup_insert_ne.
  - intros j m' Hj Hlt. rewrite list_lookup_alter_ne in Hj by lia. eauto.
Qed.

Lemma abnormal_spec (x : dimension → option number) (T : jsval) :
  fst (check_thresholds (x Temperature) (x Vibration) (x Pressure) T) = true
  ↔ ∃ d, breached x T d.
Proof.
  rewrite check_thresholds_spec. cbn [fst]. rewrite existsb_exists. split.
  - intros (d & _ & Hd). exists d. by apply exceeds_breached.
  - intros (d & Hd). exists d. split; [destruct d; simpl; tauto|].
    by apply exceeds_breached.
Qed.

(** The decision to alert, in the specification's words. *)
Lemma alert_fires_iff now req machine :
  alert_fires env now req machine = true ↔
    (∃ d, breached (readings req) (in_force machine) d)
    ∧ (truthy (machine !! "lastAbnormalAlertSent") = false
       ∨ minutes_exceed now (machine !! "lastAbnormalAlertSent")
           (setting (ABNORMAL_ALERT_MIN_GAP_MINUTES env) 30)).
Proof.
  unfold alert_fires.
  by rewrite andb_true_iff, abnormal_spec, alert_due_iff, thresholds_in_force,
    minGapMinutes_setting.
Qed.



End Deduplication.

(** ** The maintenance reminder sweep *)

Section Reminders.
Context `{Runtime} (env : Env).

Lemma check_machine_eq now idx m w :
  check_machine env now idx m w =
    ((), if reminder_fires env now m
         then {| db := assign idx "lastMaintenanceReminderSent"
                         (JStr (toISOString now)) (db w);
                 file := file w;
                 outbox := outbox w ++ reminders env now m |}
         else w).
Proof.
  unfold check_machine, reminder_fires, reminders, reminder_fires.
  destruct (truthy (m !! "nextMaintenanceDate")); simpl; [|done].
  destruct (Num.leb _ _); simpl; [|done].
  destruct (reminder_due _ _); simpl; [|done].
  by rewrite sendAlertEmail_delivery.
Qed.

(** The loop over the machines from index [length pre] on. *)
Lemma forEach_from_check now l : ∀ pre w,
  machines (db w) = pre ++ l →
  let w' := after (forEach_from (check_machine env now) (length pre) l) w in
  machines (db w') = pre ++ (reminded env now <$> l)
  ∧ vitals (db w') = vitals (db w)
  ∧ file w' = file w
  ∧ outbox w' = outbox w ++ mjoin (reminders env now <$> l).
Proof.
  induction l as [|m l IH]; intros pre w Hw; simpl.
  - unfold after. simpl. by rewrite Hw, !app_nil_r.
  - unfold after. cbn [forEach_from]. cbv [mbind M_bind].
    rewrite check_machine_eq.
    set (w1 := if reminder_fires env now m then _ else w).
    assert (machines (db w1) = (pre ++ [reminded env now m]) ++ l
            ∧ vitals (db w1) = vitals (db w)
            ∧ file w1 = file w
            ∧ outbox w1 = outbox w ++ reminders env now m) as (Hm & Hv & Hfile & Ho).
    { unfold w1, reminded, reminders.
      destruct (reminder_fires env now m); simpl.
      - rewrite Hw. split_and!; try done.
        rewrite <- (Nat.add_0_r (length pre)), alter_app_r. simpl.
        by rewrite <- app_assoc.
      - rewrite Hw, app_nil_r, <- app_assoc. done. }
    specialize (IH (pre ++ [reminded env now m]) w1 Hm).
    rewrite length_app in IH. simpl in IH. rewrite Nat.add_1_r in IH.
    unfold after in IH. destruct IH as (IHm & IHv & IHf & IHo).
    rewrite IHm, IHv, IHf, IHo, Hv, Hfile, Ho.
    by rewrite <- !app_assoc.
Qed.

Lemma checkUpcomingMaintenance_eq now w :
  let w' := after (checkUpcomingMaintenance env now) w in
  machines (db w') = reminded env now <$> machines (db w)
  ∧ vitals (db w') = vitals (db w)
  ∧ file w' = written (db w')
  ∧ outbox w' = outbox w ++ mjoin (reminders env now <$> machines (db w)).
Proof.
  destruct (forEach_from_check now (machines (db w)) [] w eq_refl)
    as (Hm & Hv & _ & Ho).
  unfold after, checkUpcomingMaintenance, forEach in *.
  cbv [mbind M_bind gets saveDb]. simpl in *.
  destruct (forEach_from _ _ _ w) as [[] w1]. simpl in *. done.
Qed.

(** The window is the variable of the environment, read as an integer. *)
Lemma lookaheadDays_setting :
  lookaheadDays env = setting (MAINTENANCE_LOOKAHEAD_DAYS env) 7.
Proof.
  unfold lookaheadDays, setting, str_or.
  destruct (MAINTENANCE_LOOKAHEAD_DAYS env) as [s|]; [|done].
  by case_bool_decide.
Qed.

Lemma due_within_spec now due :
  Num.leb (Num.div (date_sub (Date_new due) (Some now))
             (Num.of_Z (1000 * 60 * 60 * 24))) (lookaheadDays env) = true
  ↔ due_within now due (lookaheadDays env).
Proof.
  rewrite leb_le. unfold due_within.
  destruct (Date_new due) as [t|]; unfold date_sub.
  - rewrite div_of_Z by lia.
    destruct (parseInt_cases (str_or (MAINTENANCE_LOOKAHEAD_DAYS env) "7"))
      as [Hn | [g Hg]]; fold (lookaheadDays env) in *; rewrite ?Hn, ?Hg.
    + split; [done|]. by intros (? & ? & _ & ? & _).
    + rewrite le_div by lia. split.
      * intros ?. exists t, g. split_and!; [done..|lia].
      * intros (? & ? & [= <-] & <-%of_Z_inj & ?). lia.
  - split; [done|]. by intros (? & ? & ? & _).
Qed.

Lemma reminder_due_spec now last :
  nullable_stamp last →
  reminder_due now (date_or_null last) = true ↔
    unset last ∨ full_day_elapsed now last.
Proof.
  intros Hs. unfold reminder_due, date_or_null, full_day_elapsed.
  destruct (truthy last) eqn:Ht.
  - rewrite geb_le. destruct (Date_new last) as [t|]; unfold date_sub.
    + rewrite div_of_Z, ge_div by lia. split.
      * intros ?. right. exists t. split; [done|lia].
      * intros [Hu%unset_falsy | (? & [= <-] & ?)]; [congruence|lia].
    + split; [done|]. intros [Hu%unset_falsy | (? & ? & _)]; congruence.
  - split; [|done]. intros _. left. destruct Hs as [? | ?]; [done | congruence].
Qed.

(** C8. A sweep at [now] sends, machine by machine and in order, one
    reminder for each machine the test selects, stamps exactly those
    machines with [now], leaves the vitals alone and saves the store.  For
    a machine with a maintenance date and a nullable timestamp of the last
    reminder the test holds exactly when the date is at most the lookahead
    window of days ahead (a past date counts) and the timestamp is null or
    at least one full day old; the window is [MAINTENANCE_LOOKAHEAD_DAYS]
    read as an integer, or 7. *)
Theorem reminders_when_due now w :
  let sweep := checkUpcomingMaintenance env now in
  let window := setting (MAINTENANCE_LOOKAHEAD_DAYS env) 7 in
  sent sweep w = mjoin (reminders env now <$> machines (db w))
  ∧ machines (db (after sweep w)) = reminded env now <$> machines (db w)
  ∧ vitals (db (after sweep w)) = vitals (db w)
  ∧ file (after sweep w) = written (db (after sweep w))
  ∧ (∀ m, reminder_fires env now m = true →
          length (reminders env now m) = 1%nat
          ∧ reminded env now m !! "lastMaintenanceReminderSent"
              = Some (JStr (toISOString now)))
  ∧ (∀ m, reminder_fires env now m = false →
          reminders env now m = [] ∧ reminded env now m = m)
  ∧ (∀ m, truthy (m !! "nextMaintenanceDate") = false →
          reminder_fires env now m = false)
  ∧ (∀ m, truthy (m !! "nextMaintenanceDate") = true →
          nullable_stamp (m !! "lastMaintenanceReminderSent") →
          reminder_fires env now m = true ↔
            due_within now (m !! "nextMaintenanceDate") window
            ∧ (unset (m !! "lastMaintenanceReminderSent")
               ∨ full_day_elapsed now (m !! "lastMaintenanceReminderSent"))).
Proof.
  intros sweep window.
  destruct (checkUpcomingMaintenance_eq now w) as (Hm & Hv & Hf & Ho).
  fold sweep in Hm, Hv, Hf, Ho. split_and!; try done.
  - by apply sent_after.
  - intros m Hfire. unfold reminders, reminded. rewrite Hfire.
    split; [done|]. apply lookup_insert_eq.
  - intros m Hfire. unfold reminders, reminded. by rewrite Hfire.
  - intros m Hd. unfold reminder_fires. by rewrite Hd.
  - intros m Hd Hs. unfold reminder_fires, diffDays, window. rewrite Hd.
    rewrite !andb_true_iff, due_within_spec, reminder_due_spec by done.
    rewrite lookaheadDays_setting. tauto.
Qed.

End Reminders.

(** ** Listing vitals *)

Section Listing.
Context `{Runtime}.

Lemma insert_sorted_perm {A} (cmp : A → A → number) x l :
  insert_sorted cmp x l ≡ₚ x :: l.
Proof.
  induction l as [|y l IH]; simpl; [done|].
  case_match; [|done].
  by rewrite IH, Permutation_swap.
Qed.

Lemma sort_perm {A} (cmp : A → A → number) l : sort cmp l ≡ₚ l.
Proof.
  induction l as [|x l IH]; simpl; [done|].
  by rewrite insert_sorted_perm, IH.
Qed.

Lemma by_timestamp_gtb a b ta tb :
  time_of a = Some ta → time_of b = Some tb →
  Num.gtb (by_timestamp a b) (Num.of_Z 0) = bool_decide (tb < ta).
Proof.
  unfold time_of, by_timestamp. intros -> ->.
  apply eq_true_iff_eq. rewrite gtb_lt, bool_decide_eq_true.
  simpl. unfold Qlt. simpl. lia.
Qed.

Lemma not_after_trans a b c : not_after a b → not_after b c → not_after a c.
Proof.
  intros (ta & tb & Ha & Hb & ?) (tb' & tc & Hb' & Hc & ?).
  exists ta, tc. split_and!; [done..|]. rewrite Hb in Hb'. injection Hb' as <-. lia.
Qed.

Lemma insert_sorted_sorted x l :
  is_Some (time_of x) → Forall (λ v, is_Some (time_of v)) l →
  StronglySorted not_after l →
  StronglySorted not_after (insert_sorted by_timestamp x l).
Proof.
  intros [tx Hx] Hall Hs. induction Hs as [|y l Hs IH Hy]; cbn [insert_sorted].
  - repeat constructor.
  - apply Forall_cons in Hall as [[ty Hty] Hall].
    rewrite (by_timestamp_gtb x y tx ty) by done. case_bool_decide as Hlt.
    + constructor; [by apply IH|].
      rewrite insert_sorted_perm. constructor; [|done].
      exists ty, tx. split_and!; [done..|lia].
    + assert (not_after x y) as Hxy by (exists tx, ty; split_and!; [done..|lia]).
      constructor; [by constructor|]. constructor; [done|].
      eapply Forall_impl; [exact Hy|]. intros z. by apply not_after_trans.
Qed.

(** With valid dates the result of [sort] is in ascending order of date. *)
Lemma sort_sorted l :
  Forall (λ v, is_Some (time_of v)) l →
  StronglySorted not_after (sort by_timestamp l).
Proof.
  induction l as [|x l IH]; intros Hall; simpl; [constructor|].
  apply Forall_cons in Hall as [Hx Hall].
  apply insert_sorted_sorted; [done| |by apply IH].
  by rewrite sort_perm.
Qed.

Lemma by_timestamp_by_key l :
  Forall (λ v, is_Some (time_of v)) l → by_key by_timestamp l.
Proof.
  intros Hall. exists (λ v, default 0 (time_of v)). intros a b Ha Hb.
  rewrite Forall_forall in Hall.
  destruct (Hall a Ha) as [ta Hta], (Hall b Hb) as [tb Htb].
  rewrite Hta, Htb. unfold by_timestamp. unfold time_of in Hta, Htb.
  by rewrite Hta, Htb.
Qed.

(** With valid dates the listing's [sort] gives the ascending order of date. *)
Lemma Array_sort_sorted l :
  Forall (λ v, is_Some (time_of v)) l →
  StronglySorted not_after (Array_sort by_timestamp l).
Proof.
  intros Hall. rewrite Array_sort_by_key by (by apply by_timestamp_by_key).
  by apply sort_sorted.
Qed.

Lemma Array_sort_nil {A} (cmp : A → A → number) : Array_sort cmp [] = [].
Proof. apply Permutation_nil_r, Array_sort_permutation. Qed.

(** [slice(-n)] keeps the last [n] elements when [n] is positive ... *)
Lemma slice_last {A} (n : Z) (l : list A) :
  1 ≤ n → slice (Num.neg (Num.of_Z n)) l = drop (length l - Z.to_nat n) l.
Proof.
  intros Hn. unfold slice. simpl. rewrite Z.quot_1_r.
  destruct (Z.ltb_spec (- n) 0); [|lia]. f_equal. lia.
Qed.

(** ... and all of them when [n] is 0 or NaN. *)
Lemma slice_all {A} (n : number) (l : list A) :
  n = NaN ∨ n = Num.of_Z 0 → slice (Num.neg n) l = l.
Proof.
  intros [-> | ->]; unfold slice; simpl; rewrite ?Z.quot_1_r;
    by replace (Z.to_nat _) with 0%nat by lia.
Qed.

(** [slice(-n)] with [n] negative drops the first [-n] elements. *)
Lemma slice_drop {A} (n : Z) (l : list A) :
  n < 0 → slice (Num.neg (Num.of_Z n)) l = drop (Z.to_nat (- n)) l.
Proof.
  intros Hn. unfold slice. simpl. rewrite Z.quot_1_r.
  destruct (Z.ltb_spec (- n) 0); [lia|].
  destruct (Z.min_spec (- n) (Z.of_nat (length l))) as [[? ->] | [? ->]]; [done|].
  rewrite Nat2Z.id, drop_all. symmetry. apply drop_ge. lia.
Qed.

Lemma get_vitals_eq id limit w :
  get_vitals id limit w =
    (json 200 (JArr (JObj <$>
       slice (Num.neg (parseInt (str_or limit "50")))
         (Array_sort by_timestamp (filter (of_machine id) (vitals (db w)))))),
     w).
Proof. reflexivity. Qed.

(** The listing for a limit of at least 1, the default 50 included: the
    most recent [n] vitals of the machine, oldest first. *)
Lemma listing_positive_limit id limit w n :
  parseInt (str_or limit "50") = Num.of_Z n → 1 ≤ n →
  let mine := filter (of_machine id) (vitals (db w)) in
  ∃ older shown,
    get_vitals id limit w = (json 200 (JArr (JObj <$> shown)), w)
    ∧ older ++ shown ≡ₚ mine
    ∧ length shown = (length mine `min` Z.to_nat n)%nat
    ∧ (Forall (λ v, is_Some (time_of v)) mine →
       StronglySorted not_after (older ++ shown)).
Proof.
  intros Hp Hn mine. rewrite get_vitals_eq, Hp, slice_last by done. fold mine.
  set (sorted := Array_sort by_timestamp mine).
  exists (take (length sorted - Z.to_nat n) sorted),
         (drop (length sorted - Z.to_nat n) sorted).
  rewrite take_drop. assert (length sorted = length mine) as Hlen.
  { unfold sorted. by rewrite Array_sort_permutation. }
  split_and!; [done|apply Array_sort_permutation| |apply Array_sort_sorted].
  rewrite length_drop. lia.
Qed.

Lemma listing_default_limit : parseInt (str_or None "50") = Num.of_Z 50.
Proof. reflexivity. Qed.

End Listing.

(** ** The listing at the edge of the limit *)

Section ListingEdge.
Import Reference.

(** C10. When the limit parses to 0 or does not parse, the listing is all
    the vitals of the machine, oldest first; so a request can be answered
    with more vitals than the limit it asked for. *)
Theorem listing_unlimited `{Runtime} :
  (∀ id limit w,
     parseInt (str_or limit "50") = NaN ∨ parseInt (str_or limit "50") = Num.of_Z 0 →
     ∃ shown,
       get_vitals id limit w = (json 200 (JArr (JObj <$> shown)), w)
       ∧ shown = Array_sort by_timestamp (filter (of_machine id) (vitals (db w)))
       ∧ shown ≡ₚ filter (of_machine id) (vitals (db w)))
  ∧ (∃ id limit w shown n,
       parseInt (str_or (Some limit) "50") = Num.of_Z n
       ∧ get_vitals id (Some limit) w = (json 200 (JArr (JObj <$> shown)), w)
       ∧ n < Z.of_nat (length shown)).
Proof.
  split.
  - intros id limit w Hn. eexists. split_and!; [|done|apply Array_sort_permutation].
    by rewrite get_vitals_eq, slice_all.
  - exists "m1", "0", plant. eexists. exists 0. split_and!; [done| |].
    + rewrite get_vitals_eq, slice_all by (by right). done.
    + rewrite <- Nat2Z.inj_0. apply inj_lt.
      erewrite Permutation_length by apply Array_sort_permutation. vm_compute. lia.
Qed.

(** C3, at the limit 0: the plant has two vitals of the pump and the request
    for at most 0 of them is answered with both, the older first. *)
Theorem listing_limit_zero :
  parseInt (str_or (Some "0") "50") = Num.of_Z 0
  ∧ filter (of_machine "m1") (vitals (db plant)) = [v1; v3]
  ∧ result (get_vitals "m1" (Some "0")) plant = json 200 (JArr [JObj v3; JObj v1]).
Proof. split_and!; [done | done | by vm_compute]. Qed.

End ListingEdge.

(** ** The properties at work on the reference plant *)

Section Scenarios.
Import Reference.

Lemma pump_found : find_machine "m1" (machines (db plant)) = Some (0%nat, pump).
Proof. reflexivity. Defined.

Lemma pump_known : known "m1" (machines (db plant)).
Proof. exists pump. split; [apply list_elem_of_here | reflexivity]. Defined.


(** The example of the specification: 90 against 80 is abnormal and the
    reason names both; 70 is not. *)
Example ninety_against_eighty :
  check_thresholds (Some (Num.of_Z 90)) None None (JObj default_thresholds)
    = (true, ["Temperature 90°C > 80°C"])
  ∧ check_thresholds (Some (Num.of_Z 70)) None None (JObj default_thresholds)
    = (false, []).
Proof. split; reflexivity. Qed.

Lemma kiln_found : find_machine "k1" (machines (db works)) = Some (0%nat, kiln).
Proof. reflexivity. Defined.

Lemma kiln_known : known "k1" (machines (db works)).
Proof. exists kiln. split; [apply list_elem_of_here | reflexivity]. Defined.

(** The kiln has thresholds of its own, 300, 5 and 20: a temperature of 90
    is not abnormal for it, a vibration of 7 is. *)
Lemma abnormal_iff_breached_witness :
  known "k1" (machines (db works))
  ∧ (∃ vital,
       result (post_vitals env0 "k1" hot "v4" noon noon) works
         = json 201 (JObj (object
             [("vital", JObj vital); ("abnormal", JBool false)]))
       ∧ vital !! "temperature" = Some (num 90))
  ∧ (∃ vital,
       result (post_vitals env0 "k1" shaky "v4" noon noon) works
         = json 201 (JObj (object
             [("vital", JObj vital); ("abnormal", JBool true)]))
       ∧ vital !! "vibration" = Some (num 7)).
Proof.
  split; [exact kiln_known|]. split.
  - destruct (abnormal_iff_breached env0 "k1" hot "v4" noon noon works kiln_known)
      as (idx & machine & vital & abnormal & reasons
          & Hf & _ & _ & Hr & _ & Hv & Hiff & _).
    rewrite kiln_found in Hf. injection Hf as <- <-.
    exists vital. split; [|exact (Hv Temperature)].
    rewrite Hr. replace abnormal with false; [reflexivity|].
    destruct abnormal; [exfalso|reflexivity].
    destruct (proj1 Hiff eq_refl) as (d & n & Hx & Hlt).
    destruct d; vm_compute in Hx;
      [injection Hx as <-; vm_compute in Hlt; discriminate Hlt
      | discriminate Hx | discriminate Hx].
  - destruct (abnormal_iff_breached env0 "k1" shaky "v4" noon noon works kiln_known)
      as (idx & machine & vital & abnormal & reasons
          & Hf & _ & _ & Hr & _ & Hv & Hiff & _).
    rewrite kiln_found in Hf. injection Hf as <- <-.
    exists vital. split; [|exact (Hv Vibration)].
    rewrite Hr. replace abnormal with true; [reflexivity|].
    symmetry. apply Hiff. exists Vibration, (Num.of_Z 7).
    split; reflexivity.
Defined.


(** C2, as stated, fails.  The default gap is 30 minutes.  A hot reading at
    noon alerts; an update then writes [null] back to
    [lastAbnormalAlertSent]; a hot reading ten minutes past noon alerts
    again: two notifications within the gap.  And on a machine whose
    [lastAbnormalAlertSent] was set to the empty string, which is neither
    null nor a date, a hot reading alerts. *)
Lemma alerts_repeat_within_gap :
  minGapMinutes env0 = Num.of_Z 30
  ∧ ten_past - noon = 10 * 60000
  ∧ outbox plant = []
  ∧ length (outbox (run env0
      [PostVitals "m1" hot "v4" noon noon;
       PutMachine "m1" (JObj (object [("lastAbnormalAlertSent", JNull)]));
       PostVitals "m1" hot "v5" ten_past ten_past] plant)) = 2%nat
  ∧ (∃ m, find_machine "m1" (machines (db (run env0
            [PutMachine "m1" (JObj (object [("lastAbnormalAlertSent", JStr "")]))]
            plant))) = Some (0%nat, m)
          ∧ m !! "lastAbnormalAlertSent" = Some (JStr "")
          ∧ Date_new (m !! "lastAbnormalAlertSent") = None)
  ∧ length (outbox (run env0
      [PutMachine "m1" (JObj (object [("lastAbnormalAlertSent", JStr "")]));
       PostVitals "m1" hot "v4" noon noon] plant)) = 1%nat.
Proof.
  split_and!; [reflexivity..| |reflexivity].
  eexists. split_and!; reflexivity.
Qed.

Lemma create_missing_field_rejected_witness :
  (get (JObj ∅) "name" = None ∨ get (JObj ∅) "nextMaintenanceDate" = None)
  ∧ status (result (post_machines (JObj ∅) "m3" noon) plant) = 400
  ∧ after (post_machines (JObj ∅) "m3" noon) plant = plant.
Proof.
  assert (Hm : get (JObj ∅) "name" = None ∨ get (JObj ∅) "nextMaintenanceDate" = None)
    by (left; reflexivity).
  split; [exact Hm|].
  destruct (create_missing_field_rejected (JObj ∅) "m3" noon plant Hm)
    as (Hst & _ & Hw).
  split; assumption.
Defined.

Lemma create_defaults_witness :
  status (result (post_machines press "m3" noon) plant) = 201
  ∧ ∃ machine,
      body (result (post_machines press "m3" noon) plant) = Some (JObj machine)
      ∧ machines (db (after (post_machines press "m3" noon) plant))
          = [pump; fan; machine]
      ∧ machine !! "id" = Some (JStr "m3")
      ∧ machine !! "thresholds" = Some (JObj default_thresholds).
Proof.
  assert (Hs : status (result (post_machines press "m3" noon) plant) = 201)
    by reflexivity.
  split; [exact Hs|].
  destruct (create_defaults press "m3" noon plant Hs)
    as (machine & Hb & Hm & _ & Hid & _ & _ & Hth).
  exists machine. split; [exact Hb|]. split; [exact Hm|]. split; [exact Hid|].
  apply Hth. reflexivity.
Defined.

Lemma update_merges_fields_witness :
  known "m1" (machines (db plant))
  ∧ ¬ known "m7" (machines (db plant))
  ∧ status (result (put_machine "m7" hot) plant) = 404
  ∧ ∃ updated,
      result (put_machine "m1"
                (JObj (object [("id", JStr "m9"); ("name", JStr "Pump 2")])))
        plant = json 200 (JObj updated)
      ∧ updated !! "id" = Some (JStr "m1")
      ∧ updated !! "name" = Some (JStr "Pump 2")
      ∧ updated !! "location" = Some (JStr "").
Proof.
  assert (Hu : ¬ known "m7" (machines (db plant))).
  { apply find_machine_None. reflexivity. }
  split; [exact pump_known|]. split; [exact Hu|].
  pose (req := JObj (object [("id", JStr "m9"); ("name", JStr "Pump 2")])).
  split.
  - destruct (update_merges_fields "m7" hot plant) as [Hunknown _].
    exact (proj1 (Hunknown Hu)).
  - destruct (update_merges_fields "m1" req plant) as [_ Hknown].
    destruct (Hknown pump_known)
      as (idx & old & updated & Hidx & Hid & Hr & _ & _ & _ & Hkeep & Hmerge).
    assert (old = pump) as ->.
    { destruct idx as [|[|idx]]; simpl in Hidx; [congruence| |discriminate].
      injection Hidx as <-. discriminate. }
    exists updated. split; [exact Hr|]. split; [rewrite Hkeep; reflexivity|].
    split; rewrite Hmerge by discriminate; reflexivity.
Defined.

Lemma delete_cascades_witness :
  known "m1" (machines (db plant))
  ∧ ¬ known "m7" (machines (db plant))
  ∧ after (delete_machine "m7") plant = plant
  ∧ machines (db (after (delete_machine "m1") plant)) = [fan]
  ∧ vitals (db (after (delete_machine "m1") plant)) = [v2].
Proof.
  assert (Hu : ¬ known "m7" (machines (db plant))).
  { apply find_machine_None. reflexivity. }
  split; [exact pump_known|]. split; [exact Hu|]. split.
  - destruct (delete_cascades "m7" plant) as [Hunknown _].
    exact (proj2 (Hunknown Hu)).
  - destruct (delete_cascades "m1" plant) as [_ Hknown].
    destruct (Hknown pump_known) as (idx & m & Hidx & Hid & _ & Hm & Hv & _).
    split; [|rewrite Hv; reflexivity].
    rewrite Hm. destruct idx as [|[|idx]]; simpl in Hidx; [reflexivity| |discriminate].
    injection Hidx as <-. discriminate.
Defined.

(** With a window of three days the kiln, due in two, is reminded about
    and the pump, due in four, is not; with the default window the pump is. *)
Lemma reminders_when_due_witness :
  truthy (kiln !! "nextMaintenanceDate") = true
  ∧ nullable_stamp (kiln !! "lastMaintenanceReminderSent")
  ∧ reminder_fires env_strict noon kiln = true
  ∧ reminder_fires env_strict noon pump = false
  ∧ reminder_fires env0 noon pump = true
  ∧ length (sent (checkUpcomingMaintenance env_strict noon) works) = 1%nat.
Proof.
  assert (Hs : ∀ due, nullable_stamp
            (machine_record "m" "M" due !! "lastMaintenanceReminderSent"))
    by (intros due; left; right; reflexivity).
  destruct (reminders_when_due env_strict noon works)
    as (Hsent & _ & _ & _ & _ & _ & _ & Hiff).
  destruct (reminders_when_due env0 noon works)
    as (_ & _ & _ & _ & _ & _ & _ & Hiff0).
  split; [reflexivity|]. split; [exact (Hs "")|].
  assert (Hk : reminder_fires env_strict noon kiln = true).
  { apply (Hiff kiln eq_refl (Hs "")). split.
    - exists (noon + 2 * 86400000), 3. split; [reflexivity|].
      split; [reflexivity|]. vm_compute. discriminate.
    - left. right. reflexivity. }
  assert (Hp : reminder_fires env_strict noon pump = false).
  { destruct (reminder_fires env_strict noon pump) eqn:E; [|reflexivity].
    destruct (proj1 (Hiff pump eq_refl (Hs "")) E) as [(t & g & Ht & Hg & Hle) _].
    injection Ht as <-. change (Num.of_Z 3 = Num.of_Z g) in Hg.
    injection Hg as <-. vm_compute in Hle. destruct Hle. reflexivity. }
  assert (Hp0 : reminder_fires env0 noon pump = true).
  { apply (Hiff0 pump eq_refl (Hs "")). split.
    - exists (noon + 4 * 86400000), 7. split; [reflexivity|].
      split; [reflexivity|]. vm_compute. discriminate.
    - left. right. reflexivity. }
  split; [exact Hk|]. split; [exact Hp|]. split; [exact Hp0|].
  rewrite Hsent. reflexivity.
Defined.

Lemma listing_unlimited_witness :
  parseInt (str_or (Some "all") "50") = NaN
  ∧ parseInt (str_or (Some "0") "50") = Num.of_Z 0
  ∧ result (get_vitals "m1" (Some "all")) plant
      = result (get_vitals "m1" (Some "0")) plant
  ∧ result (get_vitals "m1" (Some "0")) plant = json 200 (JArr [JObj v3; JObj v1]).
Proof.
  split; [reflexivity|]. split; [reflexivity|].
  destruct listing_unlimited as [Hall _].
  destruct (Hall "m1" (Some "all") plant (or_introl eq_refl)) as (s1 & H1 & E1 & _).
  destruct (Hall "m1" (Some "0") plant (or_intror eq_refl)) as (s2 & H2 & E2 & _).
  unfold result. rewrite H1, H2, E1, E2. split; reflexivity.
Defined.

End Scenarios.

(** ** The server as a whole: what an event can change *)

Section Events.
Context `{Runtime} (env : Env).

Lemma post_vitals_unknown id req vid t0 now w :
  ¬ known id (machines (db w)) →
  post_vitals env id req vid t0 now w = (not_found, w).
Proof.
  intros Hk%find_machine_None. unfold post_vitals, post_vitals_begin.
  cbv [mbind M_bind gets]. by rewrite Hk.
Qed.

Lemma post_simulate_unknown id vid r1 r2 r3 now w :
  ¬ known id (machines (db w)) →
  post_simulate id vid r1 r2 r3 now w = (not_found, w).
Proof.
  intros Hk%find_machine_None. unfold post_simulate.
  cbv [mbind M_bind gets]. by rewrite Hk.
Qed.

Lemma post_simulate_found id vid r1 r2 r3 now w idx machine :
  find_machine id (machines (db w)) = Some (idx, machine) →
  let T := thresholds_of machine in
  let vital := object
    [("id", JStr vid); ("machineId", JStr id);
     ("temperature", JNum (one_decimal (temp T (Fin r1))));
     ("vibration", JNum (one_decimal (vib T (Fin r2))));
     ("pressure", JNum (one_decimal (pres T (Fin r3))));
     ("timestamp", JStr (toISOString now))] in
  let d := set_vitals (vitals (db w) ++ [vital]) (db w) in
  post_simulate id vid r1 r2 r3 now w =
    (json 201 (JObj vital), {| db := d; file := written d; outbox := outbox w |}).
Proof.
  intros Hf. unfold post_simulate. cbv [mbind M_bind gets]. by rewrite Hf.
Qed.

Lemma classic_creates e : creates e ∨ ¬ creates e.
Proof. destruct e; simpl; tauto. Qed.

Lemma known_same_id id ms ms' :
  Forall2 same_id ms ms' → known id ms → known id ms'.
Proof.
  intros HF (m & (i & Hi)%list_elem_of_lookup & Hid).
  destruct (Forall2_lookup_l _ _ _ _ _ HF Hi) as (m' & Hi' & Hsame).
  exists m'. split; [by eapply list_elem_of_lookup_2|]. by rewrite <- Hsame.
Qed.

Lemma same_id_refl ms : Forall2 same_id ms ms.
Proof. by apply Forall_Forall2_diag, Forall_true. Qed.

Lemma same_id_alter idx k v ms :
  k ≠ "id" → Forall2 same_id ms (alter (insert k v) idx ms).
Proof.
  intros Hk. apply Forall2_same_length_lookup. split; [by rewrite length_alter|].
  intros i m m' Hm Hm'. destruct (decide (i = idx)) as [->|Hne].
  - rewrite list_lookup_alter_eq, Hm in Hm'. injection Hm' as <-.
    unfold same_id. by rewrite lookup_insert_ne.
  - rewrite list_lookup_alter_ne, Hm in Hm' by congruence. by injection Hm' as <-.
Qed.

Lemma same_id_insert idx old updated ms :
  ms !! idx = Some old → same_id old updated →
  Forall2 same_id ms (<[idx := updated]> ms).
Proof.
  intros Hold Hsame. apply Forall2_same_length_lookup.
  split; [by rewrite length_insert|].
  intros i m m' Hm Hm'. destruct (decide (i = idx)) as [->|Hne].
  - rewrite list_lookup_insert_eq in Hm' by (by eapply lookup_lt_Some).
    congruence.
  - rewrite list_lookup_insert_ne in Hm' by congruence. by simplify_eq.
Qed.

Lemma same_id_reminded now ms : Forall2 same_id ms (reminded env now <$> ms).
Proof.
  apply Forall2_fmap_r, Forall_Forall2_diag, Forall_forall. intros m _.
  unfold compose, same_id, reminded. destruct (reminder_fires env now m); [|done].
  by rewrite lookup_insert_ne.
Qed.

(** What one event does to the store, the file and the outbox. *)
Lemma serve_effect e w :
  let w' := after (serve env e) w in
  (w' = w ∨ saved w')
  ∧ (∃ ns, outbox w' = outbox w ++ ns
           ∧ Forall (λ n, ∃ s t, n = delivery env s t) ns
           ∧ (ns ≠ [] → notifies e))
  ∧ (creates e →
       vitals (db w') = vitals (db w)
       ∧ (machines (db w') = machines (db w)
          ∨ ∃ m, machines (db w') = machines (db w) ++ [m]))
  ∧ (∀ id, e = DeleteMachine id →
       w' = w
       ∨ ∃ idx m, machines (db w) !! idx = Some m
                  ∧ m !! "id" = Some (JStr id)
                  ∧ machines (db w') = delete idx (machines (db w))
                  ∧ vitals (db w') = filter (λ v, ¬ of_machine id v) (vitals (db w)))
  ∧ (¬ creates e → ¬ deletes e →
       Forall2 same_id (machines (db w)) (machines (db w'))
       ∧ ∃ vs, vitals (db w') = vitals (db w) ++ vs
               ∧ (length vs ≤ 1)%nat
               ∧ Forall (λ v, ∃ id, v !! "machineId" = Some (JStr id)
                                     ∧ known id (machines (db w))) vs).
Proof.
  assert (Hkeep : ∀ w', w' = w →
    (w' = w ∨ saved w')
    ∧ (∃ ns, outbox w' = outbox w ++ ns
             ∧ Forall (λ n, ∃ s t, n = delivery env s t) ns
             ∧ (ns ≠ [] → notifies e))
    ∧ (creates e →
         vitals (db w') = vitals (db w)
         ∧ (machines (db w') = machines (db w)
            ∨ ∃ m, machines (db w') = machines (db w) ++ [m]))
    ∧ (∀ id, e = DeleteMachine id →
         w' = w
         ∨ ∃ idx m, machines (db w) !! idx = Some m
                    ∧ m !! "id" = Some (JStr id)
                    ∧ machines (db w') = delete idx (machines (db w))
                    ∧ vitals (db w')
                        = filter (λ v, ¬ of_machine id v) (vitals (db w)))
    ∧ (¬ creates e → ¬ deletes e →
         Forall2 same_id (machines (db w)) (machines (db w'))
         ∧ ∃ vs, vitals (db w') = vitals (db w) ++ vs
                 ∧ (length vs ≤ 1)%nat
                 ∧ Forall (λ v, ∃ id, v !! "machineId" = Some (JStr id)
                                       ∧ known id (machines (db w))) vs)).
  { intros w' ->. split_and!; [by left| |by auto|by auto|].
    - exists []. by rewrite app_nil_r.
    - intros _ _. split; [apply same_id_refl|]. exists [].
      rewrite app_nil_r. split_and!; [done|simpl; lia|done]. }
  destruct e as [|req id now|id req|id|id limit|id req vid t0 now
                 |id vid r1 r2 r3 now| |now]; cbn zeta;
    unfold after, serve; cbv [mbind M_bind mret M_ret].
  - (* GET /api/machines *) by apply Hkeep.
  - (* POST /api/machines *)
    destruct (truthy (get req "name") && truthy (get req "nextMaintenanceDate"))
      eqn:Ht.
    + destruct (post_machines_created req id now w Ht) as (m & -> & _).
      cbn [snd db file outbox machines vitals set_machines].
      split_and!; [by right| |by eauto|done|by intros []].
      exists []. by rewrite app_nil_r.
    + rewrite post_machines_rejected by done. by apply Hkeep.
  - (* PUT /api/machines/:id *)
    destruct (find_machine id (machines (db w))) as [[idx old]|] eqn:Hf.
    + rewrite (put_machine_found id req w idx old Hf).
      apply find_machine_Some in Hf as (Hidx & Hid & _).
      cbn [snd db file outbox machines vitals set_machines].
      split_and!; [by right| |by intros []|done|].
      * exists []. by rewrite app_nil_r.
      * intros _ _. split.
        -- eapply same_id_insert; [done|]. unfold same_id.
           by rewrite lookup_insert_eq.
        -- exists []. rewrite app_nil_r. split_and!; [done|simpl; lia|done].
    + rewrite put_machine_unknown by (by apply find_machine_None).
      by apply Hkeep.
  - (* DELETE /api/machines/:id *)
    destruct (find_machine id (machines (db w))) as [[idx m]|] eqn:Hf.
    + rewrite (delete_machine_found id w idx m Hf).
      apply find_machine_Some in Hf as (Hidx & Hid & _).
      cbn [snd db file outbox machines vitals].
      split_and!; [by right| |by intros []| |by intros _ []].
      * exists []. by rewrite app_nil_r.
      * intros ? [= <-]. right. by exists idx, m.
    + rewrite delete_machine_unknown by (by apply find_machine_None).
      by apply Hkeep.
  - (* GET /api/machines/:id/vitals *)
    rewrite get_vitals_eq. by apply Hkeep.
  - (* POST /api/machines/:id/vitals *)
    destruct (find_machine id (machines (db w))) as [[idx m]|] eqn:Hf.
    + rewrite (post_vitals_found env id req vid t0 now w idx m Hf).
      assert (known id (machines (db w))) as Hk.
      { apply find_machine_Some in Hf as (Hidx & Hid & _).
        exists m. split; [by eapply list_elem_of_lookup_2|done]. }
      cbn [snd db file outbox]. split_and!; [by right| |by intros []|done|].
      * eexists. split; [done|]. split; [|done].
        destruct (_ && _); [|done]. repeat constructor. eauto.
      * intros _ _. split.
        -- destruct (_ && _); cbn [machines assign set_machines set_vitals];
             [by apply same_id_alter | apply same_id_refl].
        -- exists [make_vital id req vid t0]. split_and!.
           ++ by destruct (_ && _).
           ++ simpl; lia.
           ++ repeat constructor. exists id. split; [reflexivity|done].
    + rewrite post_vitals_unknown by (by apply find_machine_None).
      by apply Hkeep.
  - (* POST /api/machines/:id/vitals/simulate *)
    destruct (find_machine id (machines (db w))) as [[idx m]|] eqn:Hf.
    + rewrite (post_simulate_found id vid r1 r2 r3 now w idx m Hf).
      assert (known id (machines (db w))) as Hk.
      { apply find_machine_Some in Hf as (Hidx & Hid & _).
        exists m. split; [by eapply list_elem_of_lookup_2|done]. }
      cbn [snd db file outbox machines vitals set_vitals].
      split_and!; [by right| |by intros []|done|].
      * exists []. by rewrite app_nil_r.
      * intros _ _. split; [apply same_id_refl|]. eexists [_].
        split_and!; [done|simpl; lia|].
        repeat constructor. exists id. split; [reflexivity|done].
    + rewrite post_simulate_unknown by (by apply find_machine_None).
      by apply Hkeep.
  - (* GET /api/health *) rewrite get_health_eq. by apply Hkeep.
  - (* the timer *)
    destruct (checkUpcomingMaintenance_eq env now w) as (Hm & Hv & Hfile & Ho).
    unfold after in Hm, Hv, Hfile, Ho.
    destruct (checkUpcomingMaintenance env now w) as [[] w']. cbn [snd] in *.
    split_and!; [by right| |by intros []|done|].
    + eexists. split; [done|]. split; [|done].
      apply Forall_forall. intros n (ns & Hn & (m & -> & _)%list_elem_of_fmap)%list_elem_of_join.
      unfold reminders in Hn. destruct (reminder_fires env now m);
        [|by apply elem_of_nil in Hn].
      apply list_elem_of_singleton in Hn. eauto.
    + intros _ _. rewrite Hm, Hv. split; [apply same_id_reminded|].
      exists []. rewrite app_nil_r. split_and!; [done|simpl; lia|done].
Qed.

Lemma run_cons e es w : run env (e :: es) w = run env es (after (serve env e) w).
Proof. reflexivity. Qed.

(** A property every event keeps is kept by every sequence of events. *)
Lemma run_invariant (P : world → Prop) (Q : event → Prop) :
  (∀ e w, Q e → P w → P (after (serve env e) w)) →
  ∀ es w, Forall Q es → P w → P (run env es w).
Proof.
  intros Hstep es. induction es as [|e es IH]; intros w HQ HP; [done|].
  apply Forall_cons in HQ as [He Hes]. rewrite run_cons. eauto.
Qed.

Lemma known_delete id id' idx m ms :
  ms !! idx = Some m → m !! "id" = Some (JStr id) → id' ≠ id →
  known id' ms → known id' (delete idx ms).
Proof.
  intros Hidx Hid Hne (m' & (j & Hj)%list_elem_of_lookup & Hid').
  exists m'. split; [|done].
  assert (j ≠ idx) by (intros ->; congruence).
  destruct (decide (j < idx)%nat).
  - apply (list_elem_of_lookup_2 _ j). by rewrite list_lookup_delete_lt.
  - destruct j as [|j]; [lia|].
    apply (list_elem_of_lookup_2 _ j). rewrite list_lookup_delete_ge by lia. done.
Qed.


(** No event breaks the reference of a vital to its machine. *)
Lemma serve_referenced e w :
  referenced (db w) → referenced (db (after (serve env e) w)).
Proof.
  intros Hr.
  destruct (serve_effect e w) as (_ & _ & Hcreate & Hdelete & Hother).
  set (w' := after (serve env e) w) in *.
  destruct e; try (destruct Hother as (Hsame & vs & Hv & _ & Hvs); [by intros []..|];
    intros v; rewrite Hv; intros [Hin | Hin]%elem_of_app;
    [ destruct (Hr v Hin) as (id' & ? & ?)
    | destruct (proj1 (Forall_forall _ _) Hvs v Hin) as (id' & ? & ?) ];
    exists id'; (split; [done|]); by eapply known_same_id).
  - destruct (Hcreate I) as (Hv & Hm). intros v. rewrite Hv. intros Hin.
    destruct (Hr v Hin) as (id' & ? & (m' & ? & ?)). exists id'. split; [done|].
    exists m'. split; [|done].
    destruct Hm as [-> | [m ->]]; [done|]. apply elem_of_app. by left.
  - destruct (Hdelete _ eq_refl) as [-> | (idx & m & Hidx & Hid & Hm & Hv)]; [done|].
    intros v. rewrite Hv. intros [Hnot Hin]%list_elem_of_filter.
    destruct (Hr v Hin) as (id' & Hv' & Hk). exists id'. split; [done|].
    rewrite Hm. eapply known_delete; [done..| |done].
    intros ->. by apply Hnot, of_machine_spec.
Qed.

(** X2. Whatever the server is sent, every stored vital keeps carrying the
    id of a stored machine: vitals are only added for a known machine, and a
    deletion takes the vitals of the id with it. *)
Theorem vitals_stay_referenced es w :
  referenced (db w) → referenced (db (run env es w)).
Proof.
  intros Hr.
  apply (run_invariant (λ w, referenced (db w)) (λ _, True));
    [|by apply Forall_true|done].
  intros e w0 _. apply serve_referenced.
Qed.

(** X3. Stored vitals are never changed and, short of a deletion, never
    removed: after any events without a deletion the vitals of before are a
    prefix of the vitals of after. *)
Theorem vitals_append_only es w :
  Forall (λ e, ¬ deletes e) es →
  vitals (db w) `prefix_of` vitals (db (run env es w)).
Proof.
  revert w. induction es as [|e es IH]; intros w Hes; [done|].
  apply Forall_cons in Hes as [He Hes]. rewrite run_cons.
  etrans; [|by apply IH].
  destruct (serve_effect e w) as (_ & _ & Hcreate & _ & Hother).
  destruct (classic_creates e) as [Hc | Hc].
  - destruct (Hcreate Hc) as [-> _]. done.
  - destruct (Hother Hc He) as (_ & vs & -> & _). by apply prefix_app_r.
Qed.

(** X4. Only a creation or a deletion changes which ids the machines have:
    through any other events, updates included, the list of ids stays as it
    was, in order. *)
Theorem ids_only_change_by_create_or_delete es w :
  Forall (λ e, ¬ creates e ∧ ¬ deletes e) es →
  ids (machines (db (run env es w))) = ids (machines (db w)).
Proof.
  revert w. induction es as [|e es IH]; intros w Hes; [done|].
  apply Forall_cons in Hes as [[Hc Hd] Hes]. rewrite run_cons, IH by done.
  destruct (serve_effect e w) as (_ & _ & _ & _ & Hother).
  destruct (Hother Hc Hd) as (Hsame & _). symmetry.
  unfold ids. apply list_eq_Forall2, Forall2_fmap.
  eapply Forall2_impl; [exact Hsame|]. done.
Qed.

Lemma mailed_delivery subject text :
  mailed (delivery env subject text) → mail_configured env.
Proof.
  unfold delivery, mail_configured. by repeat case_bool_decide.
Qed.

(** X5. The outbox only grows, only ingestions and the timer add to it, and
    nothing is handed to the mail transport unless both a recipient and a
    mail host are configured. *)
Theorem mail_needs_configuration es w :
  ∃ ns, outbox (run env es w) = outbox w ++ ns
        ∧ Forall (λ n, mailed n → mail_configured env) ns
        ∧ (Forall (λ e, ¬ notifies e) es → ns = []).
Proof.
  revert w. induction es as [|e es IH]; intros w.
  - exists []. by rewrite app_nil_r.
  - rewrite run_cons. destruct (IH (after (serve env e) w)) as (ns2 & -> & Hns2 & Hq2).
    destruct (serve_effect e w) as (_ & (ns1 & -> & Hns1 & Hq1) & _).
    exists (ns1 ++ ns2). rewrite app_assoc. split_and!; [done| |].
    + apply Forall_app. split; [|done].
      eapply Forall_impl; [exact Hns1|]. intros n (s & t & ->).
      apply mailed_delivery.
    + intros [He Hes]%Forall_cons. rewrite (Hq2 Hes), app_nil_r.
      destruct ns1; [done|]. destruct He. by apply Hq1.
Qed.

(** X6. For an id no machine has, ingesting and simulating a vital are
    answered 404 and change nothing; listing its vitals is not an error but,
    in a store whose vitals all refer to machines, the empty list. *)
Theorem unknown_machine id req vid t0 now r1 r2 r3 limit w :
  ¬ known id (machines (db w)) →
  post_vitals env id req vid t0 now w = (not_found, w)
  ∧ post_simulate id vid r1 r2 r3 now w = (not_found, w)
  ∧ status not_found = 404
  ∧ (referenced (db w) → get_vitals id limit w = (json 200 (JArr []), w)).
Proof.
  intros Hk. split_and!.
  - by apply post_vitals_unknown.
  - by apply post_simulate_unknown.
  - done.
  - intros Hr. rewrite get_vitals_eq.
    assert (filter (of_machine id) (vitals (db w)) = []) as ->;
      [|rewrite Array_sort_nil; unfold slice; simpl; by rewrite drop_nil].
    apply elem_of_nil_inv. intros v [Hv Hin]%list_elem_of_filter.
    apply of_machine_spec in Hv. destruct (Hr v Hin) as (id' & Hid' & Hk').
    rewrite Hv in Hid'. injection Hid' as <-. done.
Qed.

End Events.

(** ** How the operations compose *)

Section Composition.
Context `{Runtime} (env : Env).

Lemma make_vital_of_machine id req vid t0 : of_machine id (make_vital id req vid t0).
Proof. by apply of_machine_spec. Qed.

Lemma post_vitals_vitals id req vid t0 now w :
  known id (machines (db w)) →
  vitals (db (after (post_vitals env id req vid t0 now) w))
    = vitals (db w) ++ [make_vital id req vid t0].
Proof.
  intros (idx & m & Hf)%known_find. unfold after.
  rewrite (post_vitals_found env id req vid t0 now w idx m Hf).
  cbn [snd db]. by destruct (_ && _).
Qed.

(** X7. A vital ingested for a known machine comes back from the listing of
    that machine when the limit is larger than the number of vitals the
    machine had: the listing then holds those vitals and the new one. *)
Theorem ingested_vital_is_listed id req vid t0 now limit n w :
  known id (machines (db w)) →
  parseInt (str_or limit "50") = Num.of_Z n →
  Z.of_nat (length (filter (of_machine id) (vitals (db w)))) < n →
  let w' := after (post_vitals env id req vid t0 now) w in
  ∃ shown,
    get_vitals id limit w' = (json 200 (JArr (JObj <$> shown)), w')
    ∧ make_vital id req vid t0 ∈ shown
    ∧ shown ≡ₚ filter (of_machine id) (vitals (db w)) ++ [make_vital id req vid t0].
Proof.
  intros Hk Hn Hlen w'.
  destruct (listing_positive_limit id limit w' n Hn ltac:(lia))
    as (older & shown & Hget & Hperm & Hshown & _).
  unfold w' in Hperm, Hshown. rewrite post_vitals_vitals in Hperm, Hshown by done.
  rewrite filter_app, filter_singleton_True in Hperm, Hshown
    by (done || apply make_vital_of_machine).
  rewrite length_app in Hshown. simpl in Hshown.
  assert (older = []) as ->.
  { apply nil_length_inv. apply Permutation_length in Hperm.
    rewrite !length_app in Hperm. simpl in Hperm. lia. }
  exists shown. split_and!; [done| |done].
  rewrite Hperm. apply elem_of_app. right. apply list_elem_of_here.
Qed.

(** X8. Updating is idempotent: the same update sent twice leaves the store,
    the file and the answer as after the first. *)
Theorem update_twice id req w :
  put_machine id req (after (put_machine id req) w)
    = (result (put_machine id req) w, after (put_machine id req) w).
Proof.
  unfold result, after.
  destruct (find_machine id (machines (db w))) as [[idx old]|] eqn:Hf.
  - rewrite (put_machine_found id req w idx old Hf). cbn [fst snd].
    set (updated := <["id" := JStr id]> (spread req ∪ old)).
    pose proof Hf as (Hidx & Hid & Hfirst)%find_machine_Some.
    assert (find_machine id (<[idx := updated]> (machines (db w)))
            = Some (idx, updated)) as Hf'.
    { apply find_machine_Some. split_and!.
      - apply list_lookup_insert_eq. by eapply lookup_lt_Some.
      - apply lookup_insert_eq.
      - intros j m' Hj Hlt. rewrite list_lookup_insert_ne in Hj by lia. eauto. }
    rewrite (put_machine_found id req _ idx updated) by exact Hf'.
    cbn [db machines vitals set_machines outbox].
    assert (<["id" := JStr id]> (spread req ∪ updated) = updated) as ->.
    { apply map_eq. intros k. unfold updated. rewrite !merged_lookup.
      case_decide; [done|]. by destruct (spread req !! k). }
    by rewrite list_insert_insert_eq.
  - apply find_machine_None in Hf.
    rewrite (put_machine_unknown id req w Hf). cbn [fst snd].
    by rewrite (put_machine_unknown id req w Hf).
Qed.

(** X9. The deletion of a known id takes out the first machine that has the
    id and no other: the machines before it and after it stay, so the list
    is one shorter.  The listing of the vitals of the id is empty from then
    on, and the id stays known exactly when a later machine has it too. *)
Theorem deleted_machine_is_gone id limit w :
  known id (machines (db w)) →
  let w' := after (delete_machine id) w in
  ∃ idx m,
    machines (db w) !! idx = Some m
    ∧ m !! "id" = Some (JStr id)
    ∧ (∀ j m', machines (db w) !! j = Some m' → (j < idx)%nat →
               m' !! "id" ≠ Some (JStr id))
    ∧ machines (db w') = take idx (machines (db w)) ++ drop (S idx) (machines (db w))
    ∧ (length (machines (db w')) + 1 = length (machines (db w)))%nat
    ∧ get_vitals id limit w' = (json 200 (JArr []), w')
    ∧ (known id (machines (db w')) ↔
         ∃ j m', (idx < j)%nat ∧ machines (db w) !! j = Some m'
                 ∧ m' !! "id" = Some (JStr id)).
Proof.
  intros (idx & m & Hf)%known_find w'. unfold w', after.
  rewrite (delete_machine_found id w idx m Hf). cbn [snd db machines vitals].
  apply find_machine_Some in Hf as (Hidx & Hid & Hfirst).
  exists idx, m. split_and!; [done..| | | |].
  - apply delete_take_drop.
  - rewrite length_delete by eauto. apply lookup_lt_Some in Hidx. lia.
  - rewrite get_vitals_eq. cbn [db vitals].
    assert (filter (of_machine id) (filter (λ v, ¬ of_machine id v) (vitals (db w))) = [])
      as ->; [|rewrite Array_sort_nil; unfold slice; simpl; by rewrite drop_nil].
    apply elem_of_nil_inv. intros v [Hv [Hnv _]%list_elem_of_filter]%list_elem_of_filter.
    done.
  - split.
    + intros (m' & (j & Hj)%list_elem_of_lookup & Hid').
      destruct (decide (j < idx)%nat).
      * rewrite list_lookup_delete_lt in Hj by done. by destruct (Hfirst j m').
      * rewrite list_lookup_delete_ge in Hj by lia.
        exists (S j), m'. split_and!; [lia|done..].
    + intros (j & m' & Hlt & Hj & Hid'). exists m'. split; [|done].
      destruct j as [|j]; [lia|]. apply (list_elem_of_lookup_2 _ j).
      rewrite list_lookup_delete_ge by lia. done.
Qed.

(** X10. A successful creation shows in the list of machines: the list is
    the one of before followed by the created record, which has the ten
    fields of a machine and no other, whatever else the request carried. *)
Theorem created_machine_is_listed req id now w :
  truthy (get req "name") = true →
  truthy (get req "nextMaintenanceDate") = true →
  let w' := after (post_machines req id now) w in
  ∃ machine,
    result (post_machines req id now) w = json 201 (JObj machine)
    ∧ result get_machines w' = json 200 (JArr (JObj <$> machines (db w) ++ [machine]))
    ∧ dom machine =
        {["id"; "name"; "code"; "location"; "nextMaintenanceDate";
          "responsibleEmail"; "thresholds"; "lastMaintenanceReminderSent";
          "lastAbnormalAlertSent"; "createdAt"]}.
Proof.
  intros Hn Hd w'. unfold w', result, after.
  assert (truthy (get req "name") && truthy (get req "nextMaintenanceDate") = true)
    as Ht by (by rewrite Hn, Hd).
  unfold post_machines. rewrite Hn, Hd. simpl.
  eexists. split_and!; [reflexivity|reflexivity|].
  unfold object. simpl. rewrite !dom_insert_L, dom_empty_L. set_solver.
Qed.

End Composition.

(** ** Reminders over time, and what the client shows *)

Section RemindersOverTime.
Context `{Runtime} (env : Env).





Lemma div_lt (a k g : Z) :
  0 < k → Num.lt (Fin (inject_Z a / inject_Z k)) (Num.of_Z g) ↔ a < k * g.
Proof.
  intros Hk. simpl. unfold Qlt, Qdiv, Qinv, Qmult. simpl.
  destruct k as [|k|k]; try lia. simpl. nia.
Qed.

(** The label of [statusForMachine], by the date of the machine. *)
Lemma statusForMachine_label now m :
  statusForMachine m now !! "label" = Some (JStr
    (if negb (truthy (m !! "nextMaintenanceDate")) then "Unknown"
     else match Date_new (m !! "nextMaintenanceDate") with
          | None => "OK"
          | Some t =>
              if bool_decide (t - now < 0) then "Overdue"
              else if bool_decide (t - now ≤ 3 * 86400000) then "Due soon"
              else if bool_decide (t - now ≤ 7 * 86400000) then "Planned"
              else "OK"
          end)).
Proof.
  unfold statusForMachine.
  destruct (truthy (m !! "nextMaintenanceDate")); simpl; [|done].
  destruct (Date_new (m !! "nextMaintenanceDate")) as [t|]; unfold date_sub;
    [|done].
  rewrite div_of_Z by lia.
  set (d := Fin _).
  assert (Num.ltb d (Num.of_Z 0) = bool_decide (t - now < 0)) as ->.
  { apply eq_true_iff_eq. rewrite ltb_lt, bool_decide_eq_true.
    unfold d. rewrite div_lt by lia. lia. }
  assert (∀ g, Num.leb d (Num.of_Z g) = bool_decide (t - now ≤ g * 86400000)) as Hle.
  { intros g. apply eq_true_iff_eq. rewrite leb_le, bool_decide_eq_true.
    unfold d. rewrite le_div by lia. lia. }
  rewrite !Hle. by repeat case_bool_decide.
Qed.

(** X12. The client and the server agree on a machine at the same instant
    when the lookahead is the default: whenever the sweep reminds about a
    machine the client labels it Overdue, Due soon or Planned, and a machine
    the client labels so is reminded about unless it was within the last
    day.  A date that does not parse is labelled OK and never reminded
    about. *)
Theorem status_agrees_with_reminders now m :
  lookaheadDays env = Num.of_Z 7 →
  let label := statusForMachine m now !! "label" in
  let flagged := label = Some (JStr "Overdue") ∨ label = Some (JStr "Due soon")
                 ∨ label = Some (JStr "Planned") in
  (reminder_fires env now m = true ↔
     flagged
     ∧ reminder_due now (date_or_null (m !! "lastMaintenanceReminderSent")) = true)
  ∧ (truthy (m !! "nextMaintenanceDate") = true →
     Date_new (m !! "nextMaintenanceDate") = None →
     label = Some (JStr "OK") ∧ reminder_fires env now m = false).
Proof.
  intros Hlook label flagged. unfold flagged, label.
  rewrite statusForMachine_label. unfold reminder_fires, diffDays.
  rewrite Hlook.
  destruct (truthy (m !! "nextMaintenanceDate")); simpl.
  - destruct (Date_new (m !! "nextMaintenanceDate")) as [t|]; unfold date_sub.
    + rewrite div_of_Z by lia.
      assert (Num.leb (Fin (inject_Z (t - now) / inject_Z (1000 * 60 * 60 * 24)))
                (Num.of_Z 7) = bool_decide (t - now ≤ 7 * 86400000)) as ->.
      { apply eq_true_iff_eq. rewrite leb_le, bool_decide_eq_true, le_div by lia.
        lia. }
      split; [|done]. rewrite andb_true_iff, bool_decide_eq_true.
      repeat case_bool_decide; (split; intros [Ha Hb]; (split; [|done]));
        first [lia | by eauto | by destruct Ha as [?|[?|?]]].
    + split; [|done]. simpl. split; [done|].
      by intros [[?|[?|?]] _].
  - split; [|done]. split; [done|]. by intros [[?|[?|?]] _].
Qed.

End RemindersOverTime.

(** ** Threshold tests at the edges, and the listing for any limit *)

Section Edges.
Context `{Runtime}.

Lemma lt_irrefl n : ¬ Num.lt n n.
Proof. destruct n; simpl; try tauto. apply Qlt_irrefl. Qed.

(** X13. A vital is abnormal exactly when there is at least one reason, and
    there are at most three; readings that are all null are not abnormal,
    nor is a reading equal to its threshold. *)
Theorem abnormal_iff_some_reason temperature vibration pressure T :
  let '(abnormal, reasons) := check_thresholds temperature vibration pressure T in
  (abnormal = true ↔ reasons ≠ [])
  ∧ (length reasons ≤ 3)%nat
  ∧ (temperature = None → vibration = None → pressure = None → abnormal = false)
  ∧ (get T "temperature" = JNum <$> temperature →
     get T "vibration" = JNum <$> vibration →
     get T "pressure" = JNum <$> pressure →
     abnormal = false).
Proof.
  pose (x := λ d, match d with
                  | Temperature => temperature
                  | Vibration => vibration
                  | Pressure => pressure
                  end).
  pose proof (check_thresholds_spec x T) as Hc. simpl in Hc.
  assert (Heq : ∀ d, get T (key d) = JNum <$> x d → exceeds (x d) (get T (key d)) = false).
  { intros d Hd. unfold exceeds. rewrite Hd. destruct (x d) as [n|]; [|done].
    simpl. apply not_true_is_false. rewrite gtb_lt. apply lt_irrefl. }
  pose proof (Heq Temperature) as H1. pose proof (Heq Vibration) as H2.
  pose proof (Heq Pressure) as H3. simpl in H1, H2, H3.
  rewrite Hc. clear Hc Heq. simpl. split_and!.
  - destruct (exceeds temperature _), (exceeds vibration _), (exceeds pressure _);
      simpl; split; done.
  - destruct (exceeds temperature _), (exceeds vibration _), (exceeds pressure _);
      simpl; lia.
  - by intros -> -> ->.
  - intros Ht Hv Hp. by rewrite H1, H2, H3.
Qed.

(** X14. Whatever the limit, the listing changes nothing and answers with
    the vitals of the machine less some that are left out: every vital shown
    is a stored vital of that machine.  When the timestamps of the machine's
    vitals are valid dates, the vitals left out and shown are, together, in
    ascending order of date, so those left out are the oldest.  A limit of
    at least 1 shows that many of the latest, a limit of 0 or one that is
    not a number leaves none out, and a negative limit leaves out that many
    of the oldest. *)
Theorem listing_is_a_final_segment id limit w :
  let mine := filter (of_machine id) (vitals (db w)) in
  let limit_is n := parseInt (str_or limit "50") = n in
  ∃ older shown,
    get_vitals id limit w = (json 200 (JArr (JObj <$> shown)), w)
    ∧ older ++ shown ≡ₚ mine
    ∧ (∀ v, v ∈ shown → v ∈ vitals (db w) ∧ v !! "machineId" = Some (JStr id))
    ∧ (Forall (λ v, is_Some (time_of v)) mine →
       StronglySorted not_after (older ++ shown)
       ∧ ∀ a b, a ∈ older → b ∈ shown → not_after a b)
    ∧ (∀ n, 1 ≤ n → limit_is (Num.of_Z n) →
         length shown = (Z.to_nat n `min` length mine)%nat)
    ∧ (limit_is NaN ∨ limit_is (Num.of_Z 0) → older = [])
    ∧ (∀ k, 0 < k → limit_is (Num.of_Z (- k)) →
         length older = (Z.to_nat k `min` length mine)%nat).
Proof.
  intros mine limit_is. unfold limit_is. rewrite get_vitals_eq. fold mine.
  set (sorted := Array_sort by_timestamp mine).
  set (start := Num.neg (parseInt (str_or limit "50"))).
  assert (length sorted = length mine) as Hlen.
  { unfold sorted. by rewrite Array_sort_permutation. }
  assert (∃ k, slice start sorted = drop k sorted) as [k Hk] by (by eexists).
  exists (take k sorted), (drop k sorted). rewrite Hk, take_drop.
  split_and!.
  - done.
  - apply Array_sort_permutation.
  - intros v Hv%subseteq_drop. unfold sorted in Hv.
    rewrite Array_sort_permutation in Hv.
    apply list_elem_of_filter in Hv as [Hid Hv]. by apply of_machine_spec in Hid.
  - intros Hvalid. pose proof (Array_sort_sorted mine Hvalid) as Hs.
    fold sorted in Hs. split; [done|].
    intros a b Ha Hb. rewrite <- (take_drop k sorted) in Hs.
    by eapply StronglySorted_app_1_elem_of.
  - intros n Hn Hp. unfold start in Hk. rewrite Hp, slice_last in Hk by done.
    rewrite <- Hk, length_drop. lia.
  - intros Hp. unfold start in Hk. rewrite slice_all in Hk by done.
    assert (length sorted = length (drop k sorted)) as Hl by (by rewrite <- Hk).
    rewrite length_drop in Hl. apply nil_length_inv. rewrite length_take. lia.
  - intros n Hn Hp. unfold start in Hk. rewrite Hp, slice_drop in Hk by lia.
    rewrite Z.opp_involutive in Hk.
    assert (length (drop k sorted) = length (drop (Z.to_nat n) sorted)) as Hl
      by (by rewrite Hk).
    rewrite !length_drop in Hl. rewrite length_take. lia.
Qed.

(** X15. After a simulated vital arrives the client keeps at most the fifty
    latest vitals, the new one last. *)
Theorem client_keeps_fifty prev data :
  (length (with_new_vital prev data) ≤ 50)%nat
  ∧ last (with_new_vital prev data) = Some data
  ∧ ∃ dropped, dropped ++ with_new_vital prev data = prev ++ [data]
               ∧ length dropped = (length prev + 1 - 50)%nat.
Proof.
  unfold with_new_vital. rewrite slice_last by lia.
  rewrite length_app. simpl. split_and!.
  - rewrite length_drop, length_app. simpl. lia.
  - rewrite last_lookup, length_drop, lookup_drop, length_app. simpl.
    replace (_ + _)%nat with (length prev) by lia.
    by rewrite lookup_app_r, Nat.sub_diag by lia.
  - eexists (take _ _). rewrite take_drop. split; [done|].
    rewrite length_take, length_app. simpl. lia.
Qed.

End Edges.

(** ** Simulated readings *)

Section Simulation.
Context `{Runtime}.


End Simulation.

(** ** Requests that overlap *)

Section Overlap.
Context `{Runtime} (env : Env).

Lemma awaits_transport_configured :
  awaits_transport env = true ↔ mail_configured env.
Proof.
  unfold awaits_transport, mail_configured.
  rewrite andb_true_iff, !negb_true_iff, !bool_decide_eq_false. done.
Qed.

(** The first half of the vitals handler for a known machine: it waits when
    it alerts and the mail transport is configured, and else it is the whole
    handler. *)
Lemma post_vitals_begin_found id req vid t0 now w idx machine :
  find_machine id (machines (db w)) = Some (idx, machine) →
  let vital := make_vital id req vid t0 in
  let reasons := snd (check_thresholds (readings req Temperature)
                        (readings req Vibration) (readings req Pressure)
                        (thresholds_of machine)) in
  post_vitals_begin env id req vid t0 now w =
    if alert_fires env now req machine && awaits_transport env
    then (Waiting idx vital true now,
          {| db := set_vitals (vitals (db w) ++ [vital]) (db w);
             file := file w;
             outbox := outbox w ++
               [delivery env (alert_subject machine)
                  (alert_text machine vital reasons)] |})
    else (Answered (result (post_vitals env id req vid t0 now) w),
          after (post_vitals env id req vid t0 now) w).
Proof.
  intros Hf. unfold result, after, post_vitals, alert_fires, post_vitals_begin.
  cbv [mbind M_bind gets]. rewrite Hf. unfold readings. simpl.
  destruct (check_thresholds _ _ _ _) as [abnormal reasons]. simpl.
  destruct abnormal; simpl; [|done].
  destruct (alert_due _ _ _); simpl; [|done].
  rewrite sendAlertEmail_delivery. by destruct (awaits_transport env).
Qed.

(** X17. With a recipient and a mail host configured the gap does not hold
    two requests apart that overlap.  When a second abnormal vital for the
    machine arrives while the handler of the first waits for the mail
    transport, the stamp of the first is not written yet and the second
    passes the same test: both are handed to the transport, however close in
    time, and the stamp that stays is that of the handler that resumes
    last. *)
Theorem overlapping_alerts_both_sent id w idx machine
    req1 vid1 t1 now1 req2 vid2 t2 now2 :
  mail_configured env →
  find_machine id (machines (db w)) = Some (idx, machine) →
  let last := machine !! "lastAbnormalAlertSent" in
  let gap := setting (ABNORMAL_ALERT_MIN_GAP_MINUTES env) 30 in
  (∃ d, breached (readings req1) (in_force machine) d) →
  (∃ d, breached (readings req2) (in_force machine) d) →
  truthy last = false ∨ (minutes_exceed now1 last gap ∧ minutes_exceed now2 last gap) →
  let sv := schedule env
    [Arrives (PostVitals id req1 vid1 t1 now1);
     Arrives (PostVitals id req2 vid2 t2 now2);
     Settles 0; Settles 0] {| state := w; pending := [] |} in
  pending sv = []
  ∧ (∃ n1 n2, outbox (state sv) = outbox w ++ [n1; n2] ∧ mailed n1 ∧ mailed n2)
  ∧ vitals (db (state sv))
      = vitals (db w) ++ [make_vital id req1 vid1 t1; make_vital id req2 vid2 t2]
  ∧ (∃ m', find_machine id (machines (db (state sv))) = Some (idx, m')
           ∧ m' !! "lastAbnormalAlertSent" = Some (JStr (toISOString now2)))
  ∧ saved (state sv).
Proof.
  intros Hmail Hf last gap Hb1 Hb2 Hdue sv.
  assert (alert_fires env now1 req1 machine = true) as Hfire1.
  { apply alert_fires_iff. split; [done|]. destruct Hdue as [? | [? _]]; auto. }
  assert (alert_fires env now2 req2 machine = true) as Hfire2.
  { apply alert_fires_iff. split; [done|]. destruct Hdue as [? | [_ ?]]; auto. }
  pose proof (proj2 awaits_transport_configured Hmail) as Hawait.
  assert (∀ s t, mailed (delivery env s t)) as Hmailed.
  { intros s t. destruct Hmail as [Hto Hhost]. unfold delivery.
    by rewrite (bool_decide_eq_false_2 _ Hto), (bool_decide_eq_false_2 _ Hhost). }
  unfold sv, schedule. cbn [foldl advance state pending].
  rewrite (post_vitals_begin_found id req1 vid1 t1 now1 w idx machine Hf).
  rewrite Hfire1, Hawait. cbn [andb snd state pending app].
  rewrite (post_vitals_begin_found id req2 vid2 t2 now2 _ idx machine)
    by exact Hf.
  rewrite Hfire2, Hawait.
  cbn [andb snd state pending app lookup list_lookup delete list_delete target
       held_vital held_abnormal held_now db outbox vitals machines set_vitals].
  unfold post_vitals_resume, post_vitals_end.
  cbv [mbind M_bind mret M_ret modify saveDb assign].
  cbn [snd state pending lookup list_lookup delete list_delete target
       held_vital held_abnormal held_now db outbox vitals machines
       set_vitals set_machines file].
  split_and!.
  - done.
  - eexists _, _. rewrite <- app_assoc. split; [reflexivity|]. by split.
  - by rewrite <- app_assoc.
  - eexists. split.
    + apply find_machine_assign; [done|]. by apply find_machine_assign.
    + apply lookup_insert_eq.
  - reflexivity.
Qed.

(** X18. A schedule in which every vitals handler resumes before the next
    event is taken up leaves the server as the handlers run one after the
    other do, with no handler waiting. *)
Theorem in_turn_is_run es w :
  schedule env (in_turn es) {| state := w; pending := [] |}
    = {| state := run env es w; pending := [] |}.
Proof.
  revert w. induction es as [|e es IH]; intros w; [done|].
  rewrite run_cons, <- IH. unfold in_turn at 1. cbn [mbind list_bind].
  fold (in_turn es). unfold schedule at 1. rewrite foldl_app.
  fold (schedule env (in_turn es)). f_equal.
  unfold after.
  destruct e; cbn [foldl advance state pending fmap list_fmap];
    try (by destruct (serve env _ w)).
  unfold serve, post_vitals. cbv [mbind M_bind mret M_ret].
  destruct (post_vitals_begin env id req_body vid t0 now w) as [[r|idx v a n] w'];
    cbn [snd state pending app lookup list_lookup]; [done|].
  cbn [target held_vital held_abnormal held_now delete list_delete].
  by destruct (post_vitals_resume _ _ _ _ w').
Qed.

End Overlap.

(** ** These properties at work on the reference plant *)

Section MoreScenarios.
Import Reference.


Lemma fan_known : known "m2" (machines (db plant)).
Proof.
  exists fan. split; [apply list_elem_of_further, list_elem_of_here | reflexivity].
Defined.

Lemma plant_referenced : referenced (db plant).
Proof.
  intros v Hv. simpl in Hv.
  apply elem_of_cons in Hv as [-> | Hv];
    [exists "m1"; split; [reflexivity | exact pump_known]|].
  apply elem_of_cons in Hv as [-> | Hv];
    [exists "m2"; split; [reflexivity | exact fan_known]|].
  apply elem_of_cons in Hv as [-> | Hv];
    [exists "m1"; split; [reflexivity | exact pump_known]|].
  by apply elem_of_nil in Hv.
Defined.


(** A reading of [Infinity] is kept by the store and written as [null]. *)
Example infinite_reading_written_as_null :
  let w := after (post_vitals env0 "m1"
                    (JObj (object [("temperature", JNum PosInf)])) "v4" noon noon)
             plant in
  last (vitals (db w)) ≫= (.!! "temperature") = Some (JNum PosInf)
  ∧ last (vitals (file w)) ≫= (.!! "temperature") = Some JNull
  ∧ file w ≠ db w.
Proof. split_and!; [reflexivity..|discriminate]. Qed.

Lemma vitals_stay_referenced_witness :
  referenced (db plant)
  ∧ referenced (db (run env0 (morning ++ [DeleteMachine "m1"]) plant)).
Proof.
  split; [exact plant_referenced|].
  exact (vitals_stay_referenced env0 _ plant plant_referenced).
Defined.

Lemma morning_deletes_nothing : Forall (λ e, ¬ creates e ∧ ¬ deletes e) morning.
Proof. repeat constructor; exact (λ x, x). Defined.

Lemma vitals_append_only_witness :
  Forall (λ e, ¬ deletes e) morning
  ∧ [v1; v2; v3] `prefix_of` vitals (db (run env0 morning plant)).
Proof.
  assert (Hm : Forall (λ e, ¬ deletes e) morning)
    by (repeat constructor; exact (λ x, x)).
  split; [exact Hm|].
  exact (vitals_append_only env0 morning plant Hm).
Defined.

Lemma ids_only_change_by_create_or_delete_witness :
  Forall (λ e, ¬ creates e ∧ ¬ deletes e) morning
  ∧ ids (machines (db (run env0 morning plant)))
      = [Some (JStr "m1"); Some (JStr "m2")].
Proof.
  split; [exact morning_deletes_nothing|].
  exact (ids_only_change_by_create_or_delete env0 morning plant
           morning_deletes_nothing).
Defined.

Lemma unknown_machine_witness :
  ¬ known "m7" (machines (db plant))
  ∧ post_vitals env0 "m7" hot "v4" noon noon plant = (not_found, plant)
  ∧ get_vitals "m7" None plant = (json 200 (JArr []), plant).
Proof.
  assert (Hu : ¬ known "m7" (machines (db plant))).
  { apply find_machine_None. reflexivity. }
  split; [exact Hu|].
  destruct (unknown_machine env0 "m7" hot "v4" noon noon 0 0 0 None plant Hu)
    as (Hp & _ & _ & Hl).
  split; [exact Hp | exact (Hl plant_referenced)].
Defined.

Lemma ingested_vital_is_listed_witness :
  known "m1" (machines (db plant))
  ∧ parseInt (str_or None "50") = Num.of_Z 50
  ∧ Z.of_nat (length (filter (of_machine "m1") (vitals (db plant)))) < 50
  ∧ ∃ shown,
      get_vitals "m1" None (after (post_vitals env0 "m1" hot "v4" noon noon) plant)
        = (json 200 (JArr (JObj <$> shown)),
           after (post_vitals env0 "m1" hot "v4" noon noon) plant)
      ∧ make_vital "m1" hot "v4" noon ∈ shown.
Proof.
  assert (Hl : Z.of_nat (length (filter (of_machine "m1") (vitals (db plant)))) < 50)
    by (vm_compute; reflexivity).
  split; [exact pump_known|]. split; [reflexivity|]. split; [exact Hl|].
  destruct (ingested_vital_is_listed env0 "m1" hot "v4" noon noon None 50 plant
              pump_known eq_refl Hl) as (shown & Hg & Hin & _).
  exists shown. split; [exact Hg | exact Hin].
Defined.

(** Deleting the pump at the plant, and at the twins, where only the first
    of the two machines with its id goes. *)
Lemma deleted_machine_is_gone_witness :
  known "m1" (machines (db plant))
  ∧ machines (db (after (delete_machine "m1") plant)) = [fan]
  ∧ ¬ known "m1" (machines (db (after (delete_machine "m1") plant)))
  ∧ known "m1" (machines (db twins))
  ∧ machines (db (after (delete_machine "m1") twins)) = [fan; pump_b]
  ∧ known "m1" (machines (db (after (delete_machine "m1") twins))).
Proof.
  assert (Hk : known "m1" (machines (db twins))).
  { exists pump. split; [apply list_elem_of_further, list_elem_of_here | reflexivity]. }
  destruct (deleted_machine_is_gone "m1" None plant pump_known)
    as (idx & m & Hidx & Hid & _ & Hm & _ & _ & Hknown).
  destruct (deleted_machine_is_gone "m1" None twins Hk)
    as (idx' & m' & Hidx' & Hid' & Hfirst' & Hm' & _ & _ & Hknown').
  assert (idx = 0%nat) as ->.
  { destruct idx as [|[|idx]]; simpl in Hidx; [reflexivity| |discriminate].
    injection Hidx as <-. discriminate. }
  assert (idx' = 1%nat) as ->.
  { destruct idx' as [|[|[|idx']]]; simpl in Hidx'; [|reflexivity| |discriminate].
    - injection Hidx' as <-. discriminate.
    - destruct (Hfirst' 1%nat pump eq_refl); [lia | reflexivity]. }
  split; [exact pump_known|]. split; [rewrite Hm; reflexivity|]. split.
  - intros (j & mj & Hlt & Hj & Hidj)%Hknown.
    destruct j as [|[|j]]; simpl in Hj; [lia| |discriminate].
    injection Hj as <-. discriminate.
  - split; [exact Hk|]. split; [rewrite Hm'; reflexivity|].
    apply Hknown'. exists 2%nat, pump_b. split; [lia|]. split; reflexivity.
Defined.

Lemma created_machine_is_listed_witness :
  truthy (get press "name") = true
  ∧ truthy (get press "nextMaintenanceDate") = true
  ∧ ∃ machine,
      result get_machines (after (post_machines press "m3" noon) plant)
        = json 200 (JArr [JObj pump; JObj fan; JObj machine])
      ∧ dom machine =
          {["id"; "name"; "code"; "location"; "nextMaintenanceDate";
            "responsibleEmail"; "thresholds"; "lastMaintenanceReminderSent";
            "lastAbnormalAlertSent"; "createdAt"]}.
Proof.
  split; [reflexivity|]. split; [reflexivity|].
  destruct (created_machine_is_listed press "m3" noon plant eq_refl eq_refl)
    as (machine & _ & Hl & Hd).
  exists machine. split; [exact Hl | exact Hd].
Defined.


(** An update that writes [null] back to [lastMaintenanceReminderSent]
    arms the reminder again: two reminders about the pump a minute apart. *)
Example update_rearms_reminder :
  length (outbox (run env0
    [Timer noon;
     PutMachine "m1" (JObj (object [("lastMaintenanceReminderSent", JNull)]));
     Timer (noon + 60000)] plant)) = 2%nat.
Proof. reflexivity. Qed.

Lemma status_agrees_with_reminders_witness :
  lookaheadDays env0 = Num.of_Z 7
  ∧ statusForMachine pump noon !! "label" = Some (JStr "Planned")
  ∧ statusForMachine fan noon !! "label" = Some (JStr "OK")
  ∧ reminder_fires env0 noon pump = true.
Proof.
  split; [reflexivity|]. split; [reflexivity|]. split; [reflexivity|].
  destruct (status_agrees_with_reminders env0 noon pump eq_refl) as [Hiff _].
  apply Hiff. split; [|reflexivity]. right. right. reflexivity.
Defined.

(** Two hot readings for the pump a second apart, with the mail transport
    configured: both are mailed when the second arrives while the first
    waits, one when they are handled in turn. *)
Lemma overlapping_alerts_both_sent_witness :
  mail_configured env_mail
  ∧ find_machine "m1" (machines (db plant)) = Some (0%nat, pump)
  ∧ (∃ n1 n2,
       outbox (state (schedule env_mail
         [Arrives (PostVitals "m1" hot "v4" noon noon);
          Arrives (PostVitals "m1" hot "v5" (noon + 1000) (noon + 1000));
          Settles 0; Settles 0] {| state := plant; pending := [] |})) = [n1; n2]
       ∧ mailed n1 ∧ mailed n2)
  ∧ length (outbox (run env_mail
      [PostVitals "m1" hot "v4" noon noon;
       PostVitals "m1" hot "v5" (noon + 1000) (noon + 1000)] plant)) = 1%nat.
Proof.
  assert (Hmail : mail_configured env_mail) by (split; discriminate).
  assert (Hot : ∃ d, breached (readings hot) (in_force pump) d).
  { exists Temperature, (Num.of_Z 90). split; reflexivity. }
  split; [exact Hmail|]. split; [exact pump_found|]. split; [|reflexivity].
  destruct (overlapping_alerts_both_sent env_mail "m1" plant 0 pump
              hot "v4" noon noon hot "v5" (noon + 1000) (noon + 1000)
              Hmail pump_found Hot Hot (or_introl eq_refl))
    as (_ & (n1 & n2 & Ho & H1 & H2) & _).
  exists n1, n2. split; [exact Ho|]. split; [exact H1 | exact H2].
Defined.


End MoreScenarios.
